(** * pvcaptest: the CapData container of [captest/capdata.py]

    A shallow embedding of the column classifier ([__series_type],
    [__set_trans]), of the irradiance filter ([flt_irr], [filter_irr]) with its
    audit decorator ([update_summary]), of [reset_flt], [copy], of the
    header/date handling of the two file loaders, and of [set_reg_trans],
    [empty], [drop_cols], [view], [__comb_trans_keys] and
    [set_plot_attributes], followed by the properties proved about them.

    Conventions of the embedding.
    - A Python [str] is a [string] of bytes; [str.lower] acts on the ASCII
      letters.
    - A number held in a table is a binary64 [float] (what [pd.to_numeric]
      produces); a missing value is [nan].
    - A call that raises is a [Raise e]; a call that returns is an [Ok v].
    - A [DataFrame] is an object of the store; attributes of a [CapData] hold
      references to such objects. *)

From Stdlib Require Import ZArith List String Ascii Floats Lia Bool.
From Stdlib Require Import Permutation Sorted DecimalString.
From stdpp Require Import gmap strings.
Import ListNotations.

Local Open Scope Z_scope.
Local Open Scope list_scope.

(* ===================================================================== *)
(** * Exceptions and results *)
(* ===================================================================== *)

Inductive exn :=
| TypeError
| KeyError
| IndexError
| ValueError
| AttributeError
| UnboundLocalError (var : string)
| UndefinedVariableError (var : string).

Inductive result (A : Type) :=
| Ok (a : A)
| Raise (e : exn).
Arguments Ok {A} a.
Arguments Raise {A} e.

#[global] Instance result_ret : MRet result := @Ok.
#[global] Instance result_bind : MBind result :=
  fun A B f m => match m with Ok a => f a | Raise e => Raise e end.

Definition is_ok {A} (r : result A) : bool :=
  match r with Ok _ => true | Raise _ => false end.

(** [[f(x) for x in l]] where [f] may raise: the first exception wins. *)
Fixpoint map_result {A B} (f : A -> result B) (l : list A) : result (list B) :=
  match l with
  | [] => Ok []
  | x :: l' => y ← f x; ys ← map_result f l'; Ok (y :: ys)
  end.

(* ===================================================================== *)
(** * Strings: [str.lower], [str.find], [str.strip], [str.join] *)
(* ===================================================================== *)

Module PyStr.

Definition is_upper (c : ascii) : bool :=
  let n := nat_of_ascii c in (65 <=? n)%nat && (n <=? 90)%nat.

Definition lower_ascii (c : ascii) : ascii :=
  if is_upper c then ascii_of_nat (nat_of_ascii c + 32) else c.

(** [s.lower()] *)
Fixpoint lower (s : string) : string :=
  match s with
  | EmptyString => EmptyString
  | String c s' => String (lower_ascii c) (lower s')
  end.

(** [s.find(sub)]: the lowest index where [sub] occurs in [s]; [None] is
    Python's [-1]. *)
Fixpoint find (s sub : string) : option nat :=
  if String.prefix sub s then Some 0%nat
  else match s with
       | EmptyString => None
       | String _ s' => option_map S (find s' sub)
       end.

Definition found (o : option nat) : bool :=
  match o with Some _ => true | None => false end.

(** [sep.join(l)] *)
Fixpoint join (sep : string) (l : list string) : string :=
  match l with
  | [] => EmptyString
  | [x] => x
  | x :: l' => String.append x (String.append sep (join sep l'))
  end.

Definition mem_ascii (c : ascii) (chars : string) : bool :=
  existsb (Ascii.eqb c) (list_ascii_of_string chars).

(** [s.lstrip(chars)] *)
Fixpoint lstrip (chars : string) (s : string) : string :=
  match s with
  | EmptyString => EmptyString
  | String c s' => if mem_ascii c chars then lstrip chars s' else s
  end.

Definition rev (s : string) : string :=
  string_of_list_ascii (List.rev (list_ascii_of_string s)).

(** [s.strip(chars)] *)
Definition strip (chars : string) (s : string) : string :=
  rev (lstrip chars (rev (lstrip chars s))).

(** Python's ordering of [str]: lexicographic on the code points. *)
Definition leb (a b : string) : bool := String.leb a b.

End PyStr.

(* ===================================================================== *)
(** * Cells, series and data frames *)
(* ===================================================================== *)

(** A cell of a table: a number ([nan] when missing) or a string (the
    [index] column that [load_data] adds holds strings). *)
Inductive cell :=
| CNum (x : float)
| CStr (s : string).

(** [a >= b] and [a <= b] between two cells; a number against a string raises
    [TypeError], as in Python 3. *)
Definition py_ge (a b : cell) : result bool :=
  match a, b with
  | CNum x, CNum y => Ok (PrimFloat.leb y x)
  | CStr s, CStr t => Ok (PyStr.leb t s)
  | _, _ => Raise TypeError
  end.

Definition py_le (a b : cell) : result bool :=
  match a, b with
  | CNum x, CNum y => Ok (PrimFloat.leb x y)
  | CStr s, CStr t => Ok (PyStr.leb s t)
  | _, _ => Raise TypeError
  end.

Record Series := { s_name : string; s_values : list cell }.

Fixpoint all_nums (vs : list cell) : option (list float) :=
  match vs with
  | [] => Some []
  | CNum x :: vs' => option_map (cons x) (all_nums vs')
  | CStr _ :: _ => None
  end.

Fixpoint all_strs (vs : list cell) : option (list string) :=
  match vs with
  | [] => Some []
  | CStr s :: vs' => option_map (cons s) (all_strs vs')
  | CNum _ :: _ => None
  end.

(** The minimum of a float column, [nan] skipped ([skipna=True]); [nan] when
    nothing is left. *)
Definition nanmin (xs : list float) : float :=
  fold_left (fun acc x =>
               if PrimFloat.is_nan x then acc
               else if PrimFloat.is_nan acc then x
               else if PrimFloat.ltb x acc then x else acc) xs nan.

Definition nanmax (xs : list float) : float :=
  fold_left (fun acc x =>
               if PrimFloat.is_nan x then acc
               else if PrimFloat.is_nan acc then x
               else if PrimFloat.ltb acc x then x else acc) xs nan.

Definition str_min (s0 : string) (ss : list string) : string :=
  fold_left (fun acc s => if PyStr.leb acc s then acc else s) ss s0.

Definition str_max (s0 : string) (ss : list string) : string :=
  fold_left (fun acc s => if PyStr.leb s acc then acc else s) ss s0.

(** [series.min()] and [series.max()]: a float column gives a float, a column
    of strings gives a string, a column mixing both cannot be ordered. *)
Definition series_min (vs : list cell) : result cell :=
  match all_nums vs with
  | Some xs => Ok (CNum (nanmin xs))
  | None =>
      match all_strs vs with
      | Some (s0 :: ss) => Ok (CStr (str_min s0 ss))
      | _ => Raise TypeError
      end
  end.

Definition series_max (vs : list cell) : result cell :=
  match all_nums vs with
  | Some xs => Ok (CNum (nanmax xs))
  | None =>
      match all_strs vs with
      | Some (s0 :: ss) => Ok (CStr (str_max s0 ss))
      | _ => Raise TypeError
      end
  end.

(** A table: the column labels and the rows, each row an index label (a
    timestamp) with one cell per column. [shape0] is [df.shape[0]]. *)
Record DataFrame := { columns : list string; rows : list (Z * list cell) }.

Definition index (d : DataFrame) : list Z := map fst (rows d).
Definition shape0 (d : DataFrame) : nat := length (rows d).
Definition empty_frame : DataFrame := {| columns := []; rows := [] |}.

Definition cell_at (j : nat) (r : Z * list cell) : cell := nth j (snd r) (CNum nan).

Definition column_series (d : DataFrame) (j : nat) : Series :=
  {| s_name := nth j (columns d) EmptyString;
     s_values := map (cell_at j) (rows d) |}.

(** Every row has one cell per column. *)
Definition well_formed (d : DataFrame) : Prop :=
  Forall (fun r => length (snd r) = length (columns d)) (rows d).

(* ===================================================================== *)
(** * The column classifier *)
(* ===================================================================== *)

(** A [type_defs] table: in order, each category key with its search strings
    and, when the table has them, the [(min, max)] bounds. The integer bounds
    of the source are all exact in binary64. *)
Definition bounds : Type := cell * cell.
Definition defs_table : Type := list (string * (list string * option bounds)).

Definition num_bounds (lo hi : float) : option bounds := Some (CNum lo, CNum hi).

Definition type_defs : defs_table :=
  [ ("irr", (["irradiance"; "irr"; "plane of array"; "poa"; "ghi";
              "global"; "glob"; "w/m^2"; "w/m2"; "w/m"; "w/"],
             num_bounds (-10) 1500));
    ("temp", (["temperature"; "temp"; "degrees"; "deg"; "ambient";
               "amb"; "cell temperature"; "TArray"],
              num_bounds (-49) 127));
    ("wind", (["wind"; "speed"], num_bounds 0 18));
    ("pf", (["power factor"; "factor"; "pf"], num_bounds (-1) 1));
    ("op_state", (["operating state"; "state"; "op"; "status"], num_bounds 0 10));
    ("real_pwr", (["real power"; "ac power"; "e_grid"],
                  num_bounds (-1000000) 1000000000000));
    ("shade", (["fshdbm"; "shd"; "shade"], num_bounds 0 1));
    ("pvsyt_losses", (["IL Pmax"; "IL Pmin"; "IL Vmax"; "IL Vmin"],
                      num_bounds (-1000000000) 100000000));
    ("index", (["index"], Some (CStr "", CStr "z"))) ]%string.

Definition sub_type_defs : defs_table :=
  [ ("ghi", (["sun2"; "global horizontal"; "ghi"; "global"; "GlobHor"], None));
    ("poa", (["sun"; "plane of array"; "poa"; "GlobInc"], None));
    ("amb", (["TempF"; "ambient"; "amb"], None));
    ("mod", (["Temp1"; "module"; "mod"; "TArray"], None));
    ("mtr", (["revenue meter"; "rev meter"; "billing meter"; "meter"], None));
    ("inv", (["inverter"; "inv"], None)) ]%string.

Definition irr_sensors_defs : defs_table :=
  [ ("ref_cell", (["reference cell"; "reference"; "ref"; "referance"; "pvel"], None));
    ("pyran", (["pyranometer"; "pyran"], None));
    ("clear_sky", (["csky"], None)) ]%string.

(** A line printed by [__series_type]:
    ['{} in {} is below {} for {}'] and ['{} in {} is above {} for {}']. *)
Inductive printed :=
| Below (value : cell) (name : string) (bound : cell) (key : string)
| Above (value : cell) (name : string) (bound : cell) (key : string).

(** The body run at the first search string found in the column name. *)
Definition series_type_match (series : Series) (key : string) (b : option bounds)
    (bounds_check warnings : bool) : result (string * list printed) :=
  if bounds_check then
    match b with
    | None => Raise IndexError
    | Some (type_min, type_max) =>
        ser_min ← series_min (s_values series);
        ser_max ← series_max (s_values series);
        min_bool ← py_ge ser_min type_min;
        max_bool ← py_le ser_max type_max;
        if min_bool && max_bool then Ok (key, [])
        else if warnings then
          if negb min_bool && negb max_bool then
            Ok (key, [Below ser_min (s_name series) type_min key;
                      Above ser_max (s_name series) type_max key])
          else if negb min_bool then
            Ok (key, [Below ser_min (s_name series) type_min key])
          else if negb max_bool then
            Ok (key, [Above ser_max (s_name series) type_max key])
          else Ok (key, [])
        else Ok (key, [])
    end
  else Ok (key, []).

(** The inner loop over the search strings of one key; [None] when the loop
    ends without returning. *)
Fixpoint series_type_strs (series : Series) (key : string) (b : option bounds)
    (bounds_check warnings : bool) (strs : list string)
  : option (result (string * list printed)) :=
  match strs with
  | [] => None
  | search_str :: strs' =>
      match PyStr.find (PyStr.lower (s_name series)) (PyStr.lower search_str) with
      | None => series_type_strs series key b bounds_check warnings strs'
      | Some _ => Some (series_type_match series key b bounds_check warnings)
      end
  end.

(** [CapData.__series_type]: the category and the lines printed. *)
Fixpoint series_type (series : Series) (defs : defs_table)
    (bounds_check warnings : bool) : result (string * list printed) :=
  match defs with
  | [] => Ok (EmptyString, [])
  | (key, (strs, b)) :: defs' =>
      match series_type_strs series key b bounds_check warnings strs with
      | Some r => r
      | None => series_type series defs' bounds_check warnings
      end
  end.

(** ** Sorting, as [list.sort] does on strings and on pairs of strings *)

Fixpoint insert_sorted {A} (le : A -> A -> bool) (x : A) (l : list A) : list A :=
  match l with
  | [] => [x]
  | y :: l' => if le x y then x :: l else y :: insert_sorted le x l'
  end.

Definition py_sorted {A} (le : A -> A -> bool) (l : list A) : list A :=
  fold_right (insert_sorted le) [] l.

(** Tuples compare by their first components, then by their second. *)
Definition pair_leb (a b : string * string) : bool :=
  if String.eqb (fst a) (fst b) then PyStr.leb (snd a) (snd b)
  else PyStr.leb (fst a) (fst b).

(** [l.index(x)] and [l.count(x)] *)
Fixpoint list_index (x : string) (l : list string) : result nat :=
  match l with
  | [] => Raise ValueError
  | y :: l' => if String.eqb x y then Ok 0%nat else i ← list_index x l'; Ok (S i)
  end.

Definition list_count (x : string) (l : list string) : nat :=
  length (List.filter (String.eqb x) l).

(** [l[start:start + count]] *)
Definition slice {A} (start count : nat) (l : list A) : list A :=
  firstn count (skipn start l).

(** [list(set(l))] followed by [sort]: the distinct elements, in order. *)
Definition sorted_set (l : list string) : list string :=
  py_sorted PyStr.leb (nodup string_dec l).

(** [df.apply(self.__series_type, args=(defs,), ...).tolist()]: one call per
    column. On a frame with no column or no row [apply] hands the frame back
    instead of a series of results, and a frame has no [tolist]. *)
Definition apply_series_type (d : DataFrame) (defs : defs_table)
    (bounds_check warnings : bool) : result (list (string * list printed)) :=
  if ((length (columns d) =? 0) || (shape0 d =? 0))%nat then Raise AttributeError
  else map_result
         (fun j => series_type (column_series d j) defs bounds_check warnings)
         (seq 0 (length (columns d))).

Definition group_key (typ sub_typ irr_typ : string) : string :=
  PyStr.join "-" [typ; sub_typ; irr_typ].

Fixpoint zip3 {A B C} (la : list A) (lb : list B) (lc : list C) : list (A * B * C) :=
  match la, lb, lc with
  | a :: la', b :: lb', c :: lc' => (a, b, c) :: zip3 la' lb' lc'
  | _, _, _ => []
  end.

(** The loop that fills [trans], one key of [set(cols)] at a time. *)
Fixpoint fill_trans (col_indices orig_names_sorted keys : list string)
    (trans : gmap string (list string)) : result (gmap string (list string)) :=
  match keys with
  | [] => Ok trans
  | name :: keys' =>
      start ← list_index name col_indices;
      let count := list_count name col_indices in
      fill_trans col_indices orig_names_sorted keys'
                 (<[name := slice start count orig_names_sorted]> trans)
  end.

Record Translation := {
  t_trans : gmap string (list string);
  t_trans_keys : list string;
  t_printed : list printed
}.

(** [CapData.__set_trans] on the raw table. [set_plot_attributes], called
    last, fills only the plotting attributes, which are not embedded. *)
Definition set_trans (d : DataFrame) (trans_report : bool) : result Translation :=
  col_types ← apply_series_type d type_defs true trans_report;
  sub_types ← apply_series_type d sub_type_defs false false;
  irr_types ← apply_series_type d irr_sensors_defs false false;
  let col_indices :=
    map (fun '(typ, sub_typ, irr_typ) => group_key (fst typ) (fst sub_typ) (fst irr_typ))
        (zip3 col_types sub_types irr_types) in
  let names := py_sorted pair_leb (combine col_indices (columns d)) in
  let orig_names_sorted := map snd names in
  let col_indices := py_sorted PyStr.leb col_indices in
  let cols := sorted_set col_indices in
  trans ← fill_trans col_indices orig_names_sorted cols ∅;
  let trans_keys :=
    py_sorted PyStr.leb (List.filter (fun k => negb (String.eqb k "index--")) cols) in
  Ok {| t_trans := trans; t_trans_keys := trans_keys;
        t_printed := concat (map snd col_types) |}.

(* ===================================================================== *)
(** * Python values, arguments and their binding *)
(* ===================================================================== *)

(** References to the [DataFrame] objects of the store. *)
Definition ref : Type := nat.

Inductive pyval :=
| PNone
| PBool (b : bool)
| PInt (z : Z)
| PFloat (f : float)
| PStr (s : string)
| PFrame (r : ref).

(** What the modelled code takes from the Python runtime: the built-in [repr]
    of a value and [Timestamp.strftime('%m/%d/%Y %H %M')]. *)
Class PyRuntime := {
  py_repr : pyval -> string;
  strftime : Z -> string
}.

(** The binary64 value nearest to an integer. *)
Definition float_of_Z (z : Z) : float :=
  SF2Prim (SpecFloat.binary_normalize prec emax z 0 false).

(** The binary64 values Python reads from the literals [0.8] and [1.2]. *)
Definition float_0_8 : float := 0x1.999999999999ap-1%float.
Definition float_1_2 : float := 0x1.3333333333333p+0%float.

(** Numbers are [int] (with [bool]) and [float]; the embedding covers the
    documented argument types, anything else is refused with [TypeError]. *)
Definition py_mul (a b : pyval) : result pyval :=
  match a, b with
  | PInt x, PInt y => Ok (PInt (x * y))
  | PInt x, PBool y => Ok (PInt (x * Z.b2z y))
  | PBool x, PInt y => Ok (PInt (Z.b2z x * y))
  | PBool x, PBool y => Ok (PInt (Z.b2z x * Z.b2z y))
  | PInt x, PFloat y => Ok (PFloat (float_of_Z x * y))
  | PBool x, PFloat y => Ok (PFloat (float_of_Z (Z.b2z x) * y))
  | PFloat x, PInt y => Ok (PFloat (x * float_of_Z y))
  | PFloat x, PBool y => Ok (PFloat (x * float_of_Z (Z.b2z y)))
  | PFloat x, PFloat y => Ok (PFloat (x * y))
  | _, _ => Raise TypeError
  end.

Definition as_float (a : pyval) : result float :=
  match a with
  | PInt x => Ok (float_of_Z x)
  | PBool x => Ok (float_of_Z (Z.b2z x))
  | PFloat x => Ok x
  | _ => Raise TypeError
  end.

(** The truth value of [if v:]. *)
Definition truthy (v : pyval) : bool :=
  match v with
  | PNone => false
  | PBool b => b
  | PInt z => negb (z =? 0)
  | PFloat f => negb (PrimFloat.eqb f 0)
  | PStr s => negb (String.eqb s "")
  | PFrame _ => true
  end.

Definition kwargs_t : Type := list (string * pyval).

Fixpoint kw_lookup (k : string) (kwargs : kwargs_t) : option pyval :=
  match kwargs with
  | [] => None
  | (k', v) :: kwargs' => if String.eqb k k' then Some v else kw_lookup k kwargs'
  end.

Definition kw_remove (k : string) (kwargs : kwargs_t) : kwargs_t :=
  List.filter (fun kv => negb (String.eqb k (fst kv))) kwargs.

(** Binding of a call's arguments to a signature (the parameters after
    [self], each with its default if it has one): [TypeError] on too many
    positional arguments, on a keyword that names no parameter or one already
    given, and on a parameter left without a value. *)
Fixpoint bind_params (params : list (string * option pyval))
    (args : list pyval) (kwargs : kwargs_t) : result (list pyval) :=
  match params with
  | [] =>
      match args, kwargs with
      | [], [] => Ok []
      | _, _ => Raise TypeError
      end
  | (p, default) :: params' =>
      match args with
      | a :: args' =>
          match kw_lookup p kwargs with
          | Some _ => Raise TypeError
          | None => vs ← bind_params params' args' kwargs; Ok (a :: vs)
          end
      | [] =>
          match kw_lookup p kwargs, default with
          | Some v, _ => vs ← bind_params params' [] (kw_remove p kwargs); Ok (v :: vs)
          | None, Some v => vs ← bind_params params' [] kwargs; Ok (v :: vs)
          | None, None => Raise TypeError
          end
      end
  end.

(** [repr] of the tuple [args] and of the dict [kwargs]. *)
Definition tuple_repr `{PyRuntime} (args : list pyval) : string :=
  match args with
  | [] => "()"
  | [a] => "(" +:+ py_repr a +:+ ",)"
  | _ => "(" +:+ PyStr.join ", " (map py_repr args) +:+ ")"
  end.

Definition dict_repr `{PyRuntime} (kwargs : kwargs_t) : string :=
  "{" +:+ PyStr.join ", "
            (map (fun kv => py_repr (PStr (fst kv)) +:+ ": " +:+ py_repr (snd kv)) kwargs)
      +:+ "}".

(* ===================================================================== *)
(** * The store and the CapData object *)
(* ===================================================================== *)

Record Store := { objects : ref -> DataFrame; next_ref : ref }.

(** A new object holding [d]. *)
Definition alloc (d : DataFrame) (s : Store) : Store * ref :=
  ({| objects := fun r => if (r =? next_ref s)%nat then d else objects s r;
      next_ref := S (next_ref s) |},
   next_ref s).

(** An in-place change of the object behind [r]. *)
Definition mutate (r : ref) (d : DataFrame) (s : Store) : Store :=
  {| objects := fun r' => if (r' =? r)%nat then d else objects s r';
     next_ref := next_ref s |}.

(** One row of the audit trail; the keys are those of [columns]. The key
    [pts_before_filter] of a filter's entry holds the rows left after it. *)
Record summary_row := {
  pts_before_filter : Z;
  pts_removed : Z;
  filter_arguments : string
}.

(** The attributes of a [CapData] used by the modelled methods (the plotting
    and regression attributes are left out). *)
Record CapData := {
  name : pyval;
  df : ref;
  df_flt : option ref;
  trans : gmap string (list string);
  trans_keys : list string;
  reg_trans : gmap string string;
  summary_ix : list (pyval * string);
  summary : list summary_row
}.

Inductive warning :=
| ManyIrradianceColumns (n : nat).

Record State := {
  st_self : CapData;
  st_store : Store;
  st_warnings : list warning
}.

Definition deref (st : State) (r : ref) : DataFrame := objects (st_store st) r.

Definition with_self (st : State) (c : CapData) : State :=
  {| st_self := c; st_store := st_store st; st_warnings := st_warnings st |}.

Definition with_store (st : State) (s : Store) : State :=
  {| st_self := st_self st; st_store := s; st_warnings := st_warnings st |}.

Definition warn (w : warning) (st : State) : State :=
  {| st_self := st_self st; st_store := st_store st;
     st_warnings := st_warnings st ++ [w] |}.

Definition set_df_flt (c : CapData) (r : option ref) : CapData :=
  {| name := name c; df := df c; df_flt := r; trans := trans c;
     trans_keys := trans_keys c; reg_trans := reg_trans c;
     summary_ix := summary_ix c; summary := summary c |}.

Definition set_df (c : CapData) (r : ref) : CapData :=
  {| name := name c; df := r; df_flt := df_flt c; trans := trans c;
     trans_keys := trans_keys c; reg_trans := reg_trans c;
     summary_ix := summary_ix c; summary := summary c |}.

Definition set_translation (c : CapData) (t : Translation) : CapData :=
  {| name := name c; df := df c; df_flt := df_flt c; trans := t_trans t;
     trans_keys := t_trans_keys t; reg_trans := reg_trans c;
     summary_ix := summary_ix c; summary := summary c |}.

Definition set_summary (c : CapData) (ix : list (pyval * string))
    (rows : list summary_row) : CapData :=
  {| name := name c; df := df c; df_flt := df_flt c; trans := trans c;
     trans_keys := trans_keys c; reg_trans := reg_trans c;
     summary_ix := ix; summary := rows |}.

(** [self.summary_ix.append(ix); self.summary.append(row)] *)
Definition append_summary (c : CapData) (ix : pyval * string) (row : summary_row)
  : CapData :=
  set_summary c (summary_ix c ++ [ix]) (summary c ++ [row]).

(* ===================================================================== *)
(** * The irradiance filter *)
(* ===================================================================== *)

(** [df.rename(columns={irr_col: 'poa'})]: a label that is no column renames
    nothing ([None] is a label that is not a string). *)
Definition rename_poa (irr_col : option string) (cols : list string) : list string :=
  map (fun c => match irr_col with
                | Some i => if String.eqb c i then "poa"%string else c
                | None => c
                end) cols.

(** The position of the column a query resolves a name to: with several
    columns of that name the last one is seen. *)
Fixpoint resolve_column (x : string) (cols : list string) : option nat :=
  match cols with
  | [] => None
  | c :: cols' =>
      match resolve_column x cols' with
      | Some j => Some (S j)
      | None => if String.eqb c x then Some 0%nat else None
      end
  end.

(** The test [@low <= poa <= @high] on one cell. *)
Definition in_band (lo hi : float) (c : cell) : result bool :=
  match c with
  | CNum v => Ok (PrimFloat.leb lo v && PrimFloat.leb v hi)
  | CStr _ => Raise TypeError
  end.

(** [df.query(...)]: the rows that pass, in order. *)
Fixpoint query_band (lo hi : float) (j : nat) (rs : list (Z * list cell))
  : result (list (Z * list cell)) :=
  match rs with
  | [] => Ok []
  | r :: rs' =>
      keep ← in_band lo hi (cell_at j r);
      kept ← query_band lo hi j rs';
      Ok (if keep : bool then r :: kept else kept)
  end.

(** [df.loc[indx, :]]: for each label of [indx] in turn, every row of [df]
    carrying that label; all the columns. *)
Definition loc (d : DataFrame) (indx : list Z) : DataFrame :=
  {| columns := columns d;
     rows := flat_map (fun l => List.filter (fun r => Z.eqb (fst r) l) (rows d)) indx |}.

(** The top-level [flt_irr]. *)
Definition flt_irr (d : DataFrame) (irr_col : option string)
    (low high ref_val : pyval) : result DataFrame :=
  scaled ← match ref_val with
           | PNone => Ok (low, high)
           | _ => l ← py_mul low ref_val; h ← py_mul high ref_val; Ok (l, h)
           end;
  let df_renamed := rename_poa irr_col (columns d) in
  match resolve_column "poa" df_renamed with
  | None => Raise (UndefinedVariableError "poa")
  | Some j =>
      lo ← as_float (fst scaled);
      hi ← as_float (snd scaled);
      kept ← query_band lo hi j (rows d);
      Ok (loc d (map fst kept))
  end.

Definition filter_irr_params : list (string * option pyval) :=
  [ ("low", None); ("high", None); ("ref_val", Some PNone);
    ("col_name", Some PNone); ("inplace", Some (PBool true)) ]%string.

(** The choice of the irradiance column at the head of [filter_irr]. *)
Inductive irr_choice :=
| UseColumn (irr_col : option string)
| TooMany (n : nat).

Definition choose_irr_col (self : CapData) (col_name : pyval) : result irr_choice :=
  match col_name with
  | PNone =>
      match reg_trans self !! "poa"%string with
      | None => Raise KeyError
      | Some key =>
          match trans self !! key with
          | None => Raise KeyError
          | Some poa_cols =>
              if (1 <? length poa_cols)%nat then Ok (TooMany (length poa_cols))
              else match poa_cols with
                   | [] => Raise IndexError
                   | c :: _ => Ok (UseColumn (Some c))
                   end
          end
      end
  | PStr s => Ok (UseColumn (Some s))
  | _ => Ok (UseColumn None)
  end.

(** The body of [CapData.filter_irr] (the method before decoration). *)
Definition filter_irr_body (args : list pyval) (kwargs : kwargs_t) (st : State)
  : State * result pyval :=
  match bind_params filter_irr_params args kwargs with
  | Ok [low; high; ref_val; col_name; inplace] =>
      match choose_irr_col (st_self st) col_name with
      | Raise e => (st, Raise e)
      | Ok (TooMany n) => (warn (ManyIrradianceColumns n) st, Ok PNone)
      | Ok (UseColumn irr_col) =>
          match df_flt (st_self st) with
          | None => (st, Raise AttributeError)
          | Some r =>
              match flt_irr (deref st r) irr_col low high ref_val with
              | Raise e => (st, Raise e)
              | Ok d =>
                  let (s', r') := alloc d (st_store st) in
                  let st' := with_store st s' in
                  if truthy inplace
                  then (with_self st' (set_df_flt (st_self st') (Some r')), Ok PNone)
                  else (st', Ok (PFrame r'))
              end
          end
      end
  | Ok _ => (st, Raise TypeError)
  | Raise e => (st, Raise e)
  end.

(* ===================================================================== *)
(** * The audit decorator *)
(* ===================================================================== *)

Definition method : Type := list pyval -> kwargs_t -> State -> State * result pyval.

(** The argument string of an entry. *)
Definition summary_arg_str `{PyRuntime} (args : list pyval) (kwargs : kwargs_t) : string :=
  let arg_str := tuple_repr args in
  let kwarg_str := PyStr.strip "{}" (dict_repr kwargs) in
  if (String.length arg_str =? 0)%nat && (String.length kwarg_str =? 0)%nat
  then "no arguments"%string
  else if (String.length arg_str =? 0)%nat then kwarg_str
  else arg_str +:+ ", " +:+ kwarg_str.

(** [update_summary(func)], [fname] being [func.__name__]. *)
Definition update_summary `{PyRuntime} (fname : string) (func : method) : method :=
  fun args kwargs st =>
    match df_flt (st_self st) with
    | None => (st, Raise AttributeError)
    | Some r =>
        let pts_before := shape0 (deref st r) in
        let '(pts_before, st1) :=
          if (pts_before =? 0)%nat then
            let pts_before := shape0 (deref st (df (st_self st))) in
            (pts_before,
             with_self st
               (append_summary (st_self st) (name (st_self st), "count"%string)
                  {| pts_before_filter := Z.of_nat pts_before;
                     pts_removed := 0;
                     filter_arguments := "no filters" |}))
          else (pts_before, st) in
        match func args kwargs st1 with
        | (st2, Raise e) => (st2, Raise e)
        | (st2, Ok ret_val) =>
            let arg_str := summary_arg_str args kwargs in
            match df_flt (st_self st2) with
            | None => (st2, Raise AttributeError)
            | Some r2 =>
                let pts_after := shape0 (deref st2 r2) in
                let pts_removed := Z.of_nat pts_before - Z.of_nat pts_after in
                (with_self st2
                   (append_summary (st_self st2) (name (st_self st2), fname)
                      {| pts_before_filter := Z.of_nat pts_after;
                         pts_removed := pts_removed;
                         filter_arguments := arg_str |}),
                 Ok ret_val)
            end
        end
    end.

(** [CapData.filter_irr], as decorated. *)
Definition filter_irr `{PyRuntime} : method :=
  update_summary "filter_irr" filter_irr_body.

(** [CapData.reset_flt] *)
Definition reset_flt (st : State) : State :=
  let (s', r') := alloc (deref st (df (st_self st))) (st_store st) in
  with_self (with_store st s')
            (set_summary (set_df_flt (st_self st) (Some r')) [] []).

(* ===================================================================== *)
(** * Construction, loading and copying *)
(* ===================================================================== *)

(** [CapData.__init__(self, name)]; [self.df] is a new empty frame. *)
Definition CapData_init (args : list pyval) (kwargs : kwargs_t) (s : Store)
  : Store * result CapData :=
  match bind_params [("name"%string, None)] args kwargs with
  | Ok [nm] =>
      let (s', r) := alloc empty_frame s in
      (s', Ok {| name := nm; df := r; df_flt := None; trans := ∅;
                 trans_keys := []; reg_trans := ∅;
                 summary_ix := []; summary := [] |})
  | Ok _ => (s, Raise TypeError)
  | Raise e => (s, Raise e)
  end.

(** [all_sensors['index'] = ix_ser.apply(strftime)]: the column [index] is
    set in every row to the formatted label, and added last when absent. *)
Definition set_index_cells `{PyRuntime} (cols : list string) (r : Z * list cell)
  : Z * list cell :=
  let v := CStr (strftime (fst r)) in
  if existsb (String.eqb "index") cols
  then (fst r, map (fun cc => if String.eqb (fst cc) "index" then v else snd cc)
                   (combine cols (snd r)))
  else (fst r, snd r ++ [v]).

Definition add_index_column `{PyRuntime} (d : DataFrame) : DataFrame :=
  {| columns := if existsb (String.eqb "index") (columns d)
                then columns d else columns d ++ ["index"%string];
     rows := map (set_index_cells (columns d)) (rows d) |}.

(** The end of [CapData.load_data]: [all_sensors] is the table the readers
    returned (the clear-sky columns, an optional step, are not embedded). *)
Definition load_data `{PyRuntime} (all_sensors : DataFrame)
    (do_set_trans trans_report : bool) (st : State)
  : State * result (list printed) :=
  let (s1, r) := alloc (add_index_column all_sensors) (st_store st) in
  let st1 := with_self (with_store st s1) (set_df (st_self st) r) in
  let translated :=
    if do_set_trans then
      match set_trans (deref st1 r) trans_report with
      | Ok t => Ok (with_self st1 (set_translation (st_self st1) t), t_printed t)
      | Raise e => Raise e
      end
    else Ok (st1, []) in
  match translated with
  | Raise e => (st1, Raise e)
  | Ok (st2, out) =>
      let (s3, r') := alloc (deref st2 (df (st_self st2))) (st_store st2) in
      (with_self (with_store st2 s3) (set_df_flt (st_self st2) (Some r')), Ok out)
  end.

(** [CapData.copy] *)
Definition copy (st : State) : State * result CapData :=
  match CapData_init [] [] (st_store st) with
  | (s1, Raise e) => (with_store st s1, Raise e)
  | (s1, Ok cd_c) =>
      let (s2, r) := alloc (objects s1 (df (st_self st))) s1 in
      (with_store st s2,
       Ok {| name := name cd_c; df := r; df_flt := df_flt cd_c;
             trans := trans (st_self st); trans_keys := trans_keys (st_self st);
             reg_trans := reg_trans (st_self st);
             summary_ix := summary_ix cd_c; summary := summary cd_c |})
  end.

(* ===================================================================== *)
(** * The file loaders: header detection and date parsing *)
(* ===================================================================== *)

(** The index [read_csv(..., index_col=0, parse_dates=True)] returns: a
    [DatetimeIndex] when the first column parsed as dates, otherwise the
    labels as read ([ObjectIndex] holds [str(x)] of each). *)
Inductive raw_index :=
| DatetimeIndex (stamps : list Z)
| ObjectIndex (labels : list string).

(** The [header] argument of the second [read_csv] of [load_das]. *)
Inductive header_arg :=
| HeaderInfer
| HeaderRows (rows : list nat).

Section LoadDas.

(** [dateutil.parser.parse(s)] returns (rather than raising [ValueError]). *)
Variable parses : string -> bool.

(** The search loop of [load_das]: the value [header_end] is left with,
    [None] when the loop ends without assigning it. [i] is the position of
    the head of [labels]. *)
Fixpoint find_header_end (i : nat) (labels : list string) : option nat :=
  match labels with
  | [] => None
  | x :: labels' =>
      if parses x then Some (i + 1)%nat else find_header_end (S i) labels'
  end.

(** Lines 521-534 of [load_das]: [None] when the first read already gave
    timestamps (no second read), otherwise the [header] of the second read. *)
Definition load_das_header (source_is_AlsoEnergy : bool) (ix : raw_index)
  : result (option header_arg) :=
  match ix with
  | DatetimeIndex [] | ObjectIndex [] => Raise IndexError
  | DatetimeIndex (_ :: _) => Ok None
  | ObjectIndex labels =>
      let header_end := find_header_end 0 labels in
      if source_is_AlsoEnergy then Ok (Some HeaderInfer)
      else match header_end with
           | None => Raise (UnboundLocalError "header_end")
           | Some n => Ok (Some (HeaderRows (seq 0 n)))
           end
  end.

End LoadDas.

Section LoadPVsyst.

(** [pd.to_datetime(s, format='%m/%d/%y %H:%M')] and the format-free
    [pd.to_datetime(s)] on one date string; [None] is a [ValueError]. *)
Variable strptime_month_day : string -> option Z.
Variable parse_inferred : string -> option Z.

Definition to_datetime (parse : string -> option Z) (dates : list string)
  : result (list Z) :=
  map_result (fun s => match parse s with
                       | Some t => Ok t
                       | None => Raise ValueError
                       end) dates.

(** The date handling of [load_pvsyst]: the new index, with the warnings
    the code emits on the way. *)
Definition load_pvsyst_index (dates : list string)
  : result (list Z) * list string :=
  match to_datetime strptime_month_day dates with
  | Ok dt_index => (Ok dt_index, [])
  | Raise ValueError => (to_datetime parse_inferred dates, [])
  | Raise e => (Raise e, [])
  end.

End LoadPVsyst.

(* ===================================================================== *)
(** * Vocabulary of the statements *)
(* ===================================================================== *)

(** ** The classifier *)

(** The search string [s] is found in the column name, letter case ignored. *)
Definition name_matches (name s : string) : bool :=
  PyStr.found (PyStr.find (PyStr.lower name) (PyStr.lower s)).

(** No search string of the entry is found in the name. *)
Definition no_match (name : string) (entry : string * (list string * option bounds))
  : Prop :=
  Forall (fun s => name_matches name s = false) (fst (snd entry)).

(** The bounds test of an entry can be carried out on the series: the table
    has bounds, the series has a minimum and a maximum, and they are of the
    kind of the bounds. *)
Definition comparable (series : Series) (b : option bounds) : Prop :=
  exists lo hi ser_min ser_max,
    b = Some (lo, hi) /\
    series_min (s_values series) = Ok ser_min /\
    series_max (s_values series) = Ok ser_max /\
    is_ok (py_ge ser_min lo) = true /\ is_ok (py_le ser_max hi) = true.

(** The category alone, without the printed lines. *)
Definition category_of (r : result (string * list printed)) : result string :=
  match r with Ok (k, _) => Ok k | Raise e => Raise e end.

(** The category [__series_type] gives a name when it returns. *)
Definition classify (name : string) (defs : defs_table) : string :=
  match series_type {| s_name := name; s_values := [] |} defs false false with
  | Ok (k, _) => k
  | Raise _ => EmptyString
  end.

(** The key of the group of a column. *)
Definition key_of_name (c : string) : string :=
  group_key (classify c type_defs) (classify c sub_type_defs)
            (classify c irr_sensors_defs).

(** No search string of the three tables is found in the name. *)
Definition unclassified (c : string) : Prop :=
  Forall (no_match c) type_defs /\ Forall (no_match c) sub_type_defs /\
  Forall (no_match c) irr_sensors_defs.

(** ** The mapping *)

(** The raw columns paired with the key [k]. *)
Definition group (k : string) (P : list (string * string)) : list string :=
  map snd (List.filter (fun p => String.eqb k (fst p)) P).

Definition leb_sorted (l : list string) : Prop :=
  StronglySorted (fun x y => PyStr.leb x y = true) l.

Definition mem (k : string) (keys : list string) : bool := existsb (String.eqb k) keys.

(** The pairs (key, raw column), sorted as [names.sort()] sorts them. *)
Definition sorted_names (cols : list string) : list (string * string) :=
  py_sorted pair_leb (map (fun c => (key_of_name c, c)) cols).

(** The keys of the mapping, sorted and distinct. *)
Definition group_keys (cols : list string) : list string :=
  sorted_set (py_sorted PyStr.leb (map key_of_name cols)).

(** ** The audit trail *)

(** A method that leaves the audit trail alone. *)
Definition keeps_trail (func : method) : Prop :=
  forall args kwargs st,
    summary (st_self (fst (func args kwargs st))) = summary (st_self st) /\
    summary_ix (st_self (fst (func args kwargs st))) = summary_ix (st_self st).

(** The synthetic first entry and the entry of a call. *)
Definition count_entry (n : nat) : summary_row :=
  {| pts_before_filter := Z.of_nat n; pts_removed := 0;
     filter_arguments := "no filters" |}.

Definition call_entry `{PyRuntime} (counted_before rows_after : nat)
    (args : list pyval) (kwargs : kwargs_t) : summary_row :=
  {| pts_before_filter := Z.of_nat rows_after;
     pts_removed := Z.of_nat counted_before - Z.of_nat rows_after;
     filter_arguments := summary_arg_str args kwargs |}.

(** The state in which no filter has run: the working table equals the raw
    table and the audit trail is empty. *)
Definition pristine (st : State) : Prop :=
  exists r, df_flt (st_self st) = Some r /\
            deref st r = deref st (df (st_self st)) /\
            summary (st_self st) = [] /\ summary_ix (st_self st) = [].

(** ** The irradiance band *)

Definition band (lo hi : float) (j : nat) (r : Z * list cell) : bool :=
  match cell_at j r with
  | CNum v => PrimFloat.leb lo v && PrimFloat.leb v hi
  | CStr _ => false
  end.


(** Column [j] holds numbers in every row. *)
Definition numeric_at (j : nat) (rs : list (Z * list cell)) : Prop :=
  Forall (fun r => exists v, cell_at j r = CNum v) rs.

(** [irr_col] labels the column at position [j], and no other column bears
    that label or the label [poa]. *)
Definition irradiance_column (d : DataFrame) (irr_col : string) (j : nat) : Prop :=
  nth_error (columns d) j = Some irr_col /\
  forall j' c, nth_error (columns d) j' = Some c ->
               c = irr_col \/ c = "poa"%string -> j' = j.

(** ** Calls and what they change *)

Definition call : Type := list pyval * kwargs_t.

Definition run_call `{PyRuntime} (c : call) (st : State) : State :=
  fst (filter_irr (fst c) (snd c) st).

Definition run_calls `{PyRuntime} (calls : list call) (st : State) : State :=
  fold_left (fun s c => run_call c s) calls st.




(** The attributes a filter call never writes. *)
Definition same_fixed_attributes (c c' : CapData) : Prop :=
  name c' = name c /\ df c' = df c /\ trans c' = trans c /\
  trans_keys c' = trans_keys c /\ reg_trans c' = reg_trans c.

(** The store and the working-table attribute after a call: untouched, or one
    new object holding a result of [flt_irr] on the working table, which
    [df_flt] then refers to when the call was in place. *)
Definition filter_effect (st st' : State) : Prop :=
  (st_store st' = st_store st /\ df_flt (st_self st') = df_flt (st_self st)) \/
  (exists r d irr_col low high ref_val,
      df_flt (st_self st) = Some r /\
      flt_irr (deref st r) irr_col low high ref_val = Ok d /\
      st_store st' = fst (alloc d (st_store st)) /\
      (df_flt (st_self st') = df_flt (st_self st) \/
       df_flt (st_self st') = Some (next_ref (st_store st)))).


(** The references of the object lead to allocated objects. *)
Definition live (st : State) : Prop :=
  (df (st_self st) < next_ref (st_store st))%nat /\
  forall r, df_flt (st_self st) = Some r -> (r < next_ref (st_store st))%nat.

(** What the methods can observe of a state: the attributes, with the tables
    the two references lead to. *)
Record View := {
  v_name : pyval;
  v_raw : DataFrame;
  v_working : option DataFrame;
  v_trans : gmap string (list string);
  v_trans_keys : list string;
  v_reg_trans : gmap string string;
  v_summary_ix : list (pyval * string);
  v_summary : list summary_row
}.

Definition view (st : State) : View :=
  {| v_name := name (st_self st);
     v_raw := deref st (df (st_self st));
     v_working := option_map (deref st) (df_flt (st_self st));
     v_trans := trans (st_self st);
     v_trans_keys := trans_keys (st_self st);
     v_reg_trans := reg_trans (st_self st);
     v_summary_ix := summary_ix (st_self st);
     v_summary := summary (st_self st) |}.

(** Two results agree when both raise the same exception or both return,
    frames being compared by the table they hold. *)
Definition same_outcome (st st' : State) (a a' : result pyval) : Prop :=
  match a, a' with
  | Raise e, Raise e' => e = e'
  | Ok (PFrame r), Ok (PFrame r') => deref st r = deref st' r'
  | Ok v, Ok v' => v = v'
  | _, _ => False
  end.

(* ===================================================================== *)
(** * Concrete inputs *)
(* ===================================================================== *)

Definition decimal (z : Z) : string := NilZero.string_of_int (Z.to_int z).

(** A runtime for the examples: [repr] as Python prints [None], booleans,
    integers and strings without quotes or escapes; floats, frames and
    [strftime] are shown by stand-ins. *)
Definition example_repr (v : pyval) : string :=
  match v with
  | PNone => "None"
  | PBool true => "True"
  | PBool false => "False"
  | PInt z => decimal z
  | PFloat _ => "<float>"
  | PStr s => "'" +:+ s +:+ "'"
  | PFrame _ => "<DataFrame>"
  end.

Definition example_runtime : PyRuntime :=
  {| py_repr := example_repr; strftime := decimal |}.

(** The state after [CapData('das')]. *)
Definition new_object : State :=
  {| st_self := {| name := PStr "das"; df := 0%nat; df_flt := None;
                   trans := ∅; trans_keys := []; reg_trans := ∅;
                   summary_ix := []; summary := [] |};
     st_store := {| objects := fun _ => empty_frame; next_ref := 1%nat |};
     st_warnings := [] |}.

(** A loaded [CapData]: the raw table is object 0, the working table
    object 1, the audit trail is empty. *)
Definition state_of (raw working : DataFrame) : State :=
  {| st_self := {| name := PStr "das"; df := 0%nat; df_flt := Some 1%nat;
                   trans := ∅; trans_keys := []; reg_trans := ∅;
                   summary_ix := []; summary := [] |};
     st_store := {| objects := fun r => match r with O => raw | _ => working end;
                    next_ref := 2%nat |};
     st_warnings := [] |}.

Definition two_rows : DataFrame :=
  {| columns := ["poa"%string];
     rows := [(0, [CNum 900%float]); (1, [CNum 100%float])] |}.



Definition three_columns : DataFrame :=
  {| columns := ["POA irradiance"; "Ambient Temp"; "flag"]%string;
     rows := [(0, [CNum 500%float; CNum 25%float; CNum 1%float])] |}.

Definition call_800_1200 : call :=
  ([PInt 800; PInt 1200], [("col_name"%string, PStr "poa")]).

Definition call_5000_6000 : call :=
  ([PInt 5000; PInt 6000], [("col_name"%string, PStr "poa")]).

Definition call_fraction : call :=
  ([PFloat float_0_8; PFloat float_1_2],
   [("ref_val"%string, PInt 1000); ("col_name"%string, PStr "poa")]).

(* ===================================================================== *)
(** * More of the object: columns, keys, views and plot attributes *)
(* ===================================================================== *)

(** ** Strings, positions and columns by label *)

(** [str(i)] for a position [i]. *)
Definition str_of_nat (n : nat) : string := NilZero.string_of_uint (Nat.to_uint n).

(** [s.split(sep)] for a separator of one character. *)
Fixpoint str_split (sep : ascii) (s : string) : list string :=
  match s with
  | EmptyString => [EmptyString]
  | String c s' =>
      if Ascii.eqb c sep then EmptyString :: str_split sep s'
      else match str_split sep s' with
           | [] => [String c EmptyString]
           | p :: ps => String c p :: ps
           end
  end.

(** [l[i]] for an integer [i]: negative positions count from the end. *)
Definition py_index {A} (l : list A) (i : Z) : result A :=
  let n := Z.of_nat (length l) in
  let i' := if i <? 0 then i + n else i in
  if (0 <=? i') && (i' <? n)
  then match nth_error l (Z.to_nat i') with
       | Some x => Ok x
       | None => Raise IndexError
       end
  else Raise IndexError.

(** The positions of the columns labelled [x], in order. *)
Definition positions (x : string) (cols : list string) : list nat :=
  List.filter (fun j => String.eqb (nth j cols EmptyString) x) (seq 0 (length cols)).

Definition take_cells (js : list nat) (r : Z * list cell) : Z * list cell :=
  (fst r, map (fun j => cell_at j r) js).

(** The columns at the positions [js], all rows. *)
Definition take_columns (d : DataFrame) (js : list nat) : DataFrame :=
  {| columns := map (fun j => nth j (columns d) EmptyString) js;
     rows := map (take_cells js) (rows d) |}.

(** [df[keys]] for a list of labels: for each label in turn the columns
    that bear it; [KeyError] when a label is no column. *)
Definition select_columns (d : DataFrame) (keys : list string) : result DataFrame :=
  if forallb (fun k => mem k (columns d)) keys
  then Ok (take_columns d (flat_map (fun k => positions k (columns d)) keys))
  else Raise KeyError.

(** [df.drop(labels, axis=1)]: the columns whose label is not listed;
    [KeyError] when a label is no column. *)
Definition drop_columns (d : DataFrame) (labels : list string) : result DataFrame :=
  if forallb (fun k => mem k (columns d)) labels
  then Ok (take_columns d
             (List.filter (fun j => negb (mem (nth j (columns d) EmptyString) labels))
                          (seq 0 (length (columns d)))))
  else Raise KeyError.

(** [d[key]] for a dictionary written as a list of items. *)
Fixpoint kw_find {A} (k : string) (items : list (string * A)) : option A :=
  match items with
  | [] => None
  | (k', v) :: items' => if String.eqb k k' then Some v else kw_find k items'
  end.

(** [self.trans[key]] *)
Definition trans_lookup (self : CapData) (key : string) : result (list string) :=
  match trans self !! key with
  | Some l => Ok l
  | None => Raise KeyError
  end.

Definition set_groups (c : CapData) (t : gmap string (list string))
    (keys : list string) : CapData :=
  {| name := name c; df := df c; df_flt := df_flt c; trans := t;
     trans_keys := keys; reg_trans := reg_trans c;
     summary_ix := summary_ix c; summary := summary c |}.

(** ** [CapData.set_reg_trans] and [CapData.empty] *)


(** [CapData.empty]; [df.empty] holds of a table without columns or without
    rows. *)
Definition empty (st : State) : bool :=
  let d := deref st (df (st_self st)) in
  ((length (columns d) =? 0)%nat || (shape0 d =? 0)%nat)
  && (length (trans_keys (st_self st)) =? 0)%nat
  && (size (trans (st_self st)) =? 0)%nat.

(** ** [CapData.drop_cols] *)

(** [value.remove(col)]: the first occurrence goes; [None] is the
    [ValueError] of a list without [col]. *)
Fixpoint list_remove (col : string) (value : list string) : option (list string) :=
  match value with
  | [] => None
  | x :: value' =>
      if String.eqb x col then Some value'
      else option_map (cons x) (list_remove col value')
  end.

(** The inner loop of [drop_cols] on the list of one key. *)
Definition drop_from_group (cols : list string) (value : list string) : list string :=
  fold_left (fun v col => match list_remove col v with
                          | Some v' => v'
                          | None => v
                          end) cols value.

(** [CapData.drop_cols]: the lists of [trans] are changed first, the raw
    table, in place, last. *)
Definition drop_cols (cols : list string) (st : State) : State * result unit :=
  let self := st_self st in
  let st1 := with_self st (set_groups self (drop_from_group cols <$> trans self)
                                      (trans_keys self)) in
  match drop_columns (deref st (df self)) cols with
  | Raise e => (st1, Raise e)
  | Ok d => (with_store st1 (mutate (df self) d (st_store st1)), Ok tt)
  end.

(** ** [CapData.view] *)

(** The argument of [view]: a position in [trans_keys], a key, or a list of
    these. *)
Inductive tkey_item :=
| KInt (i : Z)
| KStr (s : string).

Inductive tkey :=
| TItem (k : tkey_item)
| TList (items : list tkey_item).

Definition view_keys (self : CapData) (tkey : tkey) : result (list string) :=
  match tkey with
  | TItem (KInt i) => key ← py_index (trans_keys self) i; trans_lookup self key
  | TList items =>
      if (1 <? length items)%nat
      then ls ← map_result
                  (fun key => match key with
                              | KStr s => trans_lookup self s
                              | KInt i => k ← py_index (trans_keys self) i;
                                          trans_lookup self k
                              end) items;
           Ok (concat ls)
      else Raise (UnboundLocalError "keys")
  | TItem (KStr s) =>
      if mem s (trans_keys self) then trans_lookup self s
      else Raise (UnboundLocalError "keys")
  end.

(** [CapData.view] *)
Definition CapData_view (tkey : tkey) (st : State) : result DataFrame :=
  keys ← view_keys (st_self st) tkey;
  select_columns (deref st (df (st_self st))) keys.

(** ** [CapData.__comb_trans_keys] *)

(** [CapData.__comb_trans_keys]: the object after the call and the line
    printed, if any. *)
Definition comb_trans_keys (grp : string) (self : CapData)
  : result (CapData * list string) :=
  let comb_keys :=
    List.filter (fun key => PyStr.found (PyStr.find key grp)) (trans_keys self) in
  ls ← map_result (trans_lookup self) comb_keys;
  let cols := concat ls in
  let grp_comb := grp +:+ "_comb" in
  if mem grp_comb (trans_keys self) then Ok (self, [])
  else Ok (set_groups self (<[grp_comb := cols]> (trans self))
                      (trans_keys self ++ [grp_comb]),
           ["Added new group: " +:+ grp_comb]).

(** ** [CapData.set_plot_attributes] *)

Definition plot_colors_brewer : list (string * list string) :=
  [ ("real_pwr", ["#2b8cbe"; "#7bccc4"; "#bae4bc"; "#f0f9e8"]);
    ("irr-poa", ["#e31a1c"; "#fd8d3c"; "#fecc5c"; "#ffffb2"]);
    ("irr-ghi", ["#91003f"; "#e7298a"; "#c994c7"; "#e7e1ef"]);
    ("temp-amb", ["#238443"; "#78c679"; "#c2e699"; "#ffffcc"]);
    ("temp-mod", ["#88419d"; "#8c96c6"; "#b3cde3"; "#edf8fb"]);
    ("wind", ["#238b45"; "#66c2a4"; "#b2e2e2"; "#edf8fb"]) ]%string.

(** The plotting attributes of a [CapData]. *)
Record PlotAttributes := {
  trans_abrev : gmap string string;
  col_colors : gmap string string
}.

(** The key under which [set_plot_attributes] looks a colour up;
    [key.split('-')[1]] fails on a key without a hyphen. *)
Definition col_key_of (key : string) : result string :=
  match str_split "-" key with
  | col_key0 :: col_key1 :: _ =>
      Ok (if mem col_key0 ["irr"; "temp"]%string
          then col_key0 +:+ "-" +:+ col_key1 else col_key0)
  | _ => Raise IndexError
  end.

Section Plotting.

(** The palette [Category10[10]] of bokeh. *)
Variable Category10_10 : list string.

Definition pick_color (col_key : string) (i : nat) : result string :=
  match kw_find col_key plot_colors_brewer with
  | Some palette =>
      match nth_error palette (i mod 4)%nat with
      | Some c => Ok c
      | None => Raise IndexError
      end
  | None =>
      match nth_error Category10_10 (i mod 10)%nat with
      | Some c => Ok c
      | None => Raise IndexError
      end
  end.

(** The inner loop, over the columns of one key, from position [i] on. *)
Fixpoint set_plot_cols (key : string) (i : nat) (cols : list string)
    (p : PlotAttributes) : PlotAttributes * result unit :=
  match cols with
  | [] => (p, Ok tt)
  | col :: cols' =>
      let p1 := {| trans_abrev := <[key +:+ str_of_nat i := col]> (trans_abrev p);
                   col_colors := col_colors p |} in
      match col_key ← col_key_of key; pick_color col_key i with
      | Raise e => (p1, Raise e)
      | Ok color =>
          set_plot_cols key (S i) cols'
            {| trans_abrev := trans_abrev p1;
               col_colors := <[col := color]> (col_colors p1) |}
      end
  end.

(** The outer loop, over [trans_keys]. *)
Fixpoint set_plot_keys (self : CapData) (dframe : DataFrame) (keys : list string)
    (p : PlotAttributes) : PlotAttributes * result unit :=
  match keys with
  | [] => (p, Ok tt)
  | key :: keys' =>
      match l ← trans_lookup self key; select_columns dframe l with
      | Raise e => (p, Raise e)
      | Ok d =>
          match set_plot_cols key 0 (columns d) p with
          | (p', Raise e) => (p', Raise e)
          | (p', Ok _) => set_plot_keys self dframe keys' p'
          end
      end
  end.

(** [CapData.set_plot_attributes] *)
Definition set_plot_attributes (st : State) (p : PlotAttributes)
  : PlotAttributes * result unit :=
  set_plot_keys (st_self st) (deref st (df (st_self st))) (trans_keys (st_self st)) p.

End Plotting.

(* ===================================================================== *)
(** * More vocabulary *)
(* ===================================================================== *)

(** ** Missing values *)

(** A cell that holds no value. *)
Definition missing (c : cell) : Prop :=
  match c with
  | CNum x => PrimFloat.is_nan x = true
  | CStr _ => False
  end.

(** ** The bounds of a filter *)


(** The bounds [flt_irr] compares the irradiance with: [low] and [high],
    multiplied by [ref_val] when there is one. *)
Definition scaled_bounds (low high ref_val : pyval) : result (float * float) :=
  scaled ← match ref_val with
           | PNone => Ok (low, high)
           | _ => l ← py_mul low ref_val; h ← py_mul high ref_val; Ok (l, h)
           end;
  lo ← as_float (fst scaled);
  hi ← as_float (snd scaled);
  Ok (lo, hi).

(** ** What the audit trail accounts for *)

(** The number of rows of the working table (none before a load). *)
Definition working_rows (st : State) : nat :=
  match df_flt (st_self st) with
  | Some r => shape0 (deref st r)
  | None => 0%nat
  end.

(** The rows that the entries of an audit trail report as removed. *)
Definition total_removed (entries : list summary_row) : Z :=
  fold_right (fun e acc => pts_removed e + acc) 0 entries.

(** No call of the sequence finds the working table without rows. *)
Fixpoint never_empty `{PyRuntime} (calls : list call) (st : State) : Prop :=
  match calls with
  | [] => True
  | c :: calls' => working_rows st <> 0%nat /\ never_empty calls' (run_call c st)
  end.


(** ** The mapping as a partition *)

(** The lists of the mapping hold every column of [cols] once, under one
    key, and nothing else. *)
Definition partitions (m : gmap string (list string)) (cols : list string) : Prop :=
  (forall k l, m !! k = Some l -> List.NoDup l /\ forall c, In c l -> In c cols) /\
  (forall c, In c cols -> exists k l, m !! k = Some l /\ In c l) /\
  (forall k k' l l' c, m !! k = Some l -> m !! k' = Some l' ->
                       In c l -> In c l' -> k = k').

(* ===================================================================== *)
(** * More concrete inputs *)
(* ===================================================================== *)

(** An object that has loaded [three_columns]. *)
Definition loaded : State :=
  fst (load_data (H:=example_runtime) three_columns true true new_object).

(** The ten colours of the palette, as bokeh has them. *)
Definition example_palette : list string :=
  ["#1f77b4"; "#ff7f0e"; "#2ca02c"; "#d62728"; "#9467bd";
   "#8c564b"; "#e377c2"; "#7f7f7f"; "#bcbd22"; "#17becf"]%string.

Definition no_plot_attributes : PlotAttributes :=
  {| trans_abrev := ∅; col_colors := ∅ |}.

(** A column of irradiance with a missing value. *)
Definition three_rows : DataFrame :=
  {| columns := ["poa"%string];
     rows := [(0, [CNum 900%float]); (1, [CNum nan]); (2, [CNum 100%float])] |}.

Definition call_not_inplace : call :=
  ([PInt 800; PInt 1200],
   [("col_name"%string, PStr "poa"); ("inplace"%string, PBool false)]).


(* ===================================================================== *)
(** * Tactics *)
(* ===================================================================== *)

Ltac view_eqs Hv :=
  let Hn := fresh "Hname" in let Hraw := fresh "Hraw" in let Hw := fresh "Hwork" in
  let Ht := fresh "Htrans" in let Hk := fresh "Hkeys" in let Hrt := fresh "Hreg" in
  let Hix := fresh "Hix" in let Hsum := fresh "Hsum" in
  injection Hv as Hn Hraw Hw Ht Hk Hrt Hix Hsum.

Ltac side_case Hv Hl Hl' :=
  split; [exact Hv | split; [reflexivity | split; [exact Hl | exact Hl']]].

(* ===================================================================== *)
(** * The definitions on concrete inputs *)
(* ===================================================================== *)

Example find_examples :
  PyStr.find "w/m^2 poa" "poa" = Some 6%nat /\
  PyStr.find "abc" "x" = None /\
  PyStr.find "abc" "" = Some 0%nat.
Proof. repeat split; reflexivity. Qed.

Example lower_example : PyStr.lower "TArray W/m2" = "tarray w/m2"%string.
Proof. reflexivity. Qed.

Example key_of_name_examples :
  map key_of_name
      ["POA irradiance"; "Ambient Temp"; "Inverter 1 AC Power"; "Wind Speed";
       "index"; "GHI pyranometer"; "flag"; "Module Temp"]%string
  = ["irr-poa-"; "temp-amb-"; "real_pwr-inv-"; "wind--";
     "index--"; "irr-ghi-pyran"; "--"; "temp-mod-"]%string.
Proof. vm_compute. reflexivity. Qed.

Example series_min_examples :
  series_min [CNum 3%float; CNum nan; CNum (-2)%float] = Ok (CNum (-2)%float) /\
  series_min [CStr "b"; CStr "a"] = Ok (CStr "a") /\
  series_min [CStr "b"; CNum 1%float] = Raise TypeError.
Proof. repeat split; reflexivity. Qed.

Example bind_params_examples :
  bind_params filter_irr_params [PInt 200; PInt 800] [("inplace"%string, PBool false)]
  = Ok [PInt 200; PInt 800; PNone; PNone; PBool false] /\
  bind_params filter_irr_params [PInt 200] [] = Raise TypeError /\
  bind_params filter_irr_params [PInt 200; PInt 800] [("low"%string, PInt 1)]
  = Raise TypeError.
Proof. repeat split; reflexivity. Qed.

Example summary_arg_str_examples :
  summary_arg_str (H:=example_runtime) [PInt 200; PInt 800] [] = "(200, 800), "%string /\
  summary_arg_str (H:=example_runtime) [PInt 5]
                  [("low"%string, PInt 200); ("inplace"%string, PBool false)]
  = "(5,), 'low': 200, 'inplace': False"%string.
Proof. split; vm_compute; reflexivity. Qed.

Example py_sorted_example :
  py_sorted pair_leb [("b", "x"); ("a", "z"); ("a", "y")]%string
  = [("a", "y"); ("a", "z"); ("b", "x")]%string.
Proof. reflexivity. Qed.

(* ===================================================================== *)
(** * Properties of the classifier *)
(* ===================================================================== *)

Lemma series_type_strs_none series key b bc w strs :
  Forall (fun s => name_matches (s_name series) s = false) strs ->
  series_type_strs series key b bc w strs = None.
Proof.
  induction 1 as [|s strs Hs _ IH]; simpl; [reflexivity|].
  unfold name_matches in Hs.
  destruct (PyStr.find _ _); [discriminate | exact IH].
Qed.

Lemma series_type_strs_some series key b bc w strs :
  Exists (fun s => name_matches (s_name series) s = true) strs ->
  series_type_strs series key b bc w strs = Some (series_type_match series key b bc w).
Proof.
  induction 1 as [s strs Hs | s strs _ IH]; simpl.
  - unfold name_matches in Hs. destruct (PyStr.find _ _); [reflexivity | discriminate].
  - destruct (PyStr.find _ _); [reflexivity | exact IH].
Qed.

Lemma series_type_first_match series pre key strs b post bc w :
  Forall (no_match (s_name series)) pre ->
  Exists (fun s => name_matches (s_name series) s = true) strs ->
  series_type series (pre ++ (key, (strs, b)) :: post) bc w =
  series_type_match series key b bc w.
Proof.
  intros Hpre Hex. induction Hpre as [|[k [ss b']] pre Hk _ IH]; simpl.
  - rewrite series_type_strs_some by assumption. reflexivity.
  - rewrite series_type_strs_none by exact Hk. exact IH.
Qed.




Lemma series_type_match_key series key b bc w k out :
  series_type_match series key b bc w = Ok (k, out) -> k = key.
Proof.
  unfold series_type_match. destruct bc; [|intros [= <- _]; reflexivity].
  destruct b as [[lo hi]|]; [|discriminate].
  destruct (series_min _); simpl; [|discriminate].
  destruct (series_max _); simpl; [|discriminate].
  destruct (py_ge _ _) as [mn|]; simpl; [|discriminate].
  destruct (py_le _ _) as [mx|]; simpl; [|discriminate].
  destruct mn, mx, w; simpl; intros [= <- _]; reflexivity.
Qed.

Lemma series_type_match_ok series key b w :
  comparable series b ->
  exists out, series_type_match series key b true w = Ok (key, out).
Proof.
  intros (lo & hi & mn & mx & -> & Hmin & Hmax & Hge & Hle).
  unfold series_type_match. rewrite Hmin, Hmax. simpl.
  destruct (py_ge mn lo) as [a|]; [|discriminate].
  destruct (py_le mx hi) as [c|]; [|discriminate]. simpl.
  destruct a, c, w; simpl; eexists; reflexivity.
Qed.

(** A column whose name holds a search string of category [X] and none of any
    other category of the table is given [X], provided the bounds test can be
    carried out (or is switched off). *)
Theorem series_type_unique_category series (defs : defs_table) X bounds_check warnings :
  (exists strs b, In (X, (strs, b)) defs /\
                  Exists (fun s => name_matches (s_name series) s = true) strs) ->
  (forall Y strs b, In (Y, (strs, b)) defs -> Y <> X ->
                    Forall (fun s => name_matches (s_name series) s = false) strs) ->
  (bounds_check = false \/
   forall strs b, In (X, (strs, b)) defs -> comparable series b) ->
  exists out, series_type series defs bounds_check warnings = Ok (X, out).
Proof.
  intros (strs & b & Hin & Hex) Hother Hcmp.
  induction defs as [|[k [ss b']] defs IH]; [destruct Hin|].
  simpl.
  assert (Hm : Exists (fun s => name_matches (s_name series) s = true) ss \/
               ~ Exists (fun s => name_matches (s_name series) s = true) ss).
  { destruct (existsb (name_matches (s_name series)) ss) eqn:E.
    - left. apply existsb_exists in E as (s & Hs & Hs1).
      apply List.Exists_exists. eauto.
    - right. intros HE. apply List.Exists_exists in HE as (s & Hs & Hs1).
      assert (existsb (name_matches (s_name series)) ss = true) as E'
          by (apply existsb_exists; eauto).
      congruence. }
  destruct Hm as [Hm|Hn].
  - rewrite series_type_strs_some by exact Hm.
    assert (k = X) as ->.
    { destruct (string_dec k X) as [|Hne]; [assumption|].
      specialize (Hother k ss b' (or_introl eq_refl) Hne).
      apply List.Exists_exists in Hm as (s & Hs & Hs1).
      rewrite List.Forall_forall in Hother. rewrite (Hother s Hs) in Hs1. discriminate. }
    destruct Hcmp as [-> | Hcmp].
    + exists []. reflexivity.
    + destruct bounds_check; [|exists []; reflexivity].
      apply series_type_match_ok. apply (Hcmp ss). left. reflexivity.
  - rewrite series_type_strs_none.
    2:{ apply List.Forall_forall. intros s Hs.
        destruct (name_matches (s_name series) s) eqn:E; [|reflexivity].
        exfalso. apply Hn. apply List.Exists_exists. eauto. }
    destruct Hin as [Heq | Hin].
    { inversion Heq; subst. contradiction. }
    apply IH.
    + exact Hin.
    + intros Y s0 b0 HY. apply (Hother Y s0 b0). right. exact HY.
    + destruct Hcmp as [?|Hcmp]; [left; assumption|right].
      intros s0 b0 H0. apply (Hcmp s0 b0). right. exact H0.
Qed.

Lemma series_type_unique_category_witness :
  exists out,
    series_type {| s_name := "Wind Speed"; s_values := [CNum 3%float] |}
                type_defs true false = Ok ("wind"%string, out).
Proof.
  apply series_type_unique_category.
  - exists ["wind"; "speed"]%string, (num_bounds 0 18). split.
    + vm_compute. tauto.
    + left. reflexivity.
  - intros Y strs b Hin Hne. vm_compute in Hin.
    repeat (destruct Hin as [Heq|Hin];
            [injection Heq as <- <- <-; first [congruence | repeat constructor]|]).
    contradiction.
  - right. intros strs b Hin. vm_compute in Hin.
    repeat (destruct Hin as [Heq|Hin];
            [try discriminate Heq; injection Heq as <- <-;
             exists (CNum 0%float), (CNum 18%float), (CNum 3%float), (CNum 3%float);
             repeat split; reflexivity|]).
    contradiction.
Defined.

(** Letter case: the classifier reads the name only through [lower]. *)
Lemma series_type_match_case series series' key b bc w :
  s_values series' = s_values series ->
  category_of (series_type_match series' key b bc w)
  = category_of (series_type_match series key b bc w).
Proof.
  intros Hv. unfold series_type_match. rewrite Hv.
  destruct bc; [|reflexivity]. destruct b as [[lo hi]|]; [|reflexivity].
  destruct (series_min _); simpl; [|reflexivity].
  destruct (series_max _); simpl; [|reflexivity].
  destruct (py_ge _ _) as [mn|]; simpl; [|reflexivity].
  destruct (py_le _ _) as [mx|]; simpl; [|reflexivity].
  destruct mn, mx, w; reflexivity.
Qed.

(** Two columns whose names differ by letter case only, with the same
    values, are given the same category. *)
Theorem series_type_case_insensitive series series' defs bc w :
  PyStr.lower (s_name series') = PyStr.lower (s_name series) ->
  s_values series' = s_values series ->
  category_of (series_type series' defs bc w) = category_of (series_type series defs bc w).
Proof.
  intros Hn Hv. induction defs as [|[k [ss b]] defs IH]; [reflexivity|].
  simpl.
  assert (Hs : forall strs,
             match series_type_strs series' k b bc w strs,
                   series_type_strs series k b bc w strs with
             | Some r', Some r => category_of r' = category_of r
             | None, None => True
             | _, _ => False
             end).
  { induction strs as [|s strs IHs]; simpl; [exact I|].
    rewrite Hn. destruct (PyStr.find _ _); [|exact IHs].
    apply series_type_match_case. exact Hv. }
  specialize (Hs ss).
  destruct (series_type_strs series' k b bc w ss), (series_type_strs series k b bc w ss);
    try contradiction; assumption.
Qed.

Lemma series_type_case_insensitive_witness :
  category_of (series_type {| s_name := "poa IRRADIANCE"; s_values := [CNum 500%float] |}
                           type_defs true true)
  = category_of (series_type {| s_name := "POA irradiance"; s_values := [CNum 500%float] |}
                             type_defs true true).
Proof.
  apply series_type_case_insensitive; reflexivity.
Defined.

(** A column of numbers whose name holds [index] and no search string of an
    earlier category cannot be classified with the bounds test on. *)
Lemma numeric_column_named_index_raises series warnings xs :
  all_nums (s_values series) = Some xs ->
  Forall (no_match (s_name series)) (removelast type_defs) ->
  name_matches (s_name series) "index" = true ->
  series_type series type_defs true warnings = Raise TypeError.
Proof.
  intros Hnum Hpre Hidx.
  change type_defs
    with (removelast type_defs
            ++ [("index"%string, (["index"%string], Some (CStr "", CStr "z")))]).
  rewrite series_type_first_match; [|exact Hpre|left; exact Hidx].
  unfold series_type_match, series_min, series_max. rewrite Hnum. reflexivity.
Qed.

(** C3, at its failing input. A numeric column named [Clearness Index] holds
    the search string [index] of the category [index] and no search string of
    another category; the bounds of that category are two strings, the minimum
    of the column is a number, and the comparison raises: no category is
    returned. *)
Example index_named_numeric_column_raises :
  series_type {| s_name := "Clearness Index"; s_values := [CNum 0.5%float] |}
              type_defs true true = Raise TypeError.
Proof. vm_compute. reflexivity. Qed.

(** Without the bounds test the same column is given [index]. *)
Example clearness_index_unchecked :
  series_type {| s_name := "Clearness Index"; s_values := [CNum 0.5%float] |}
              type_defs false true = Ok ("index"%string, []).
Proof. vm_compute. reflexivity. Qed.

(* ===================================================================== *)
(** * Properties of the column-group mapping *)
(* ===================================================================== *)

Local Close Scope Z_scope.

(** ** Insertion sort with a total order *)

Section Sorting.
Context {A : Type} (le : A -> A -> bool).
Hypothesis le_total : forall x y, le x y = true \/ le y x = true.
Hypothesis le_trans : forall x y z, le x y = true -> le y z = true -> le x z = true.
Hypothesis le_antisym : forall x y, le x y = true -> le y x = true -> x = y.

Let R (x y : A) : Prop := le x y = true.

Lemma insert_sorted_perm x l : Permutation (insert_sorted le x l) (x :: l).
Proof.
  induction l as [|y l IH]; simpl; [reflexivity|].
  destruct (le x y); [reflexivity|].
  rewrite IH. apply perm_swap.
Qed.

Lemma py_sorted_perm l : Permutation (py_sorted le l) l.
Proof.
  induction l as [|x l IH]; simpl; [reflexivity|].
  rewrite insert_sorted_perm. apply perm_skip. exact IH.
Qed.

Lemma insert_sorted_sorted x l :
  StronglySorted R l -> StronglySorted R (insert_sorted le x l).
Proof.
  induction 1 as [|y l Hs IH Hy]; simpl.
  - constructor; constructor.
  - destruct (le x y) eqn:Hxy.
    + constructor; [constructor; assumption|].
      constructor; [exact Hxy|].
      eapply List.Forall_impl; [|exact Hy]. intros z Hz. exact (le_trans _ _ _ Hxy Hz).
    + constructor; [exact IH|].
      eapply Permutation_Forall; [symmetry; apply insert_sorted_perm|].
      constructor; [|exact Hy].
      destruct (le_total x y) as [H|H]; [congruence|exact H].
Qed.

Lemma py_sorted_sorted l : StronglySorted R (py_sorted le l).
Proof.
  induction l as [|x l IH]; simpl; [constructor|].
  apply insert_sorted_sorted. exact IH.
Qed.

Lemma sorted_perm_eq l1 l2 :
  StronglySorted R l1 -> StronglySorted R l2 -> Permutation l1 l2 -> l1 = l2.
Proof.
  intros H1. revert l2. induction H1 as [|a l1 Hs1 IH Ha]; intros l2 H2 Hp.
  - apply Permutation_nil in Hp. congruence.
  - destruct H2 as [|b l2 Hs2 Hb].
    + apply Permutation_sym, Permutation_nil in Hp. discriminate.
    + assert (a = b) as ->.
      { assert (Hin1 : In a (b :: l2)) by (eapply Permutation_in; [exact Hp|left; reflexivity]).
        assert (Hin2 : In b (a :: l1))
          by (eapply Permutation_in; [symmetry; exact Hp|left; reflexivity]).
        destruct Hin1 as [->|Hin1]; [reflexivity|].
        destruct Hin2 as [->|Hin2]; [reflexivity|].
        rewrite List.Forall_forall in Ha, Hb.
        apply le_antisym; [apply Ha, Hin2 | apply Hb, Hin1]. }
      f_equal. apply IH; [exact Hs2|]. eapply Permutation_cons_inv. exact Hp.
Qed.

End Sorting.

(** ** The order of Python strings and of pairs of strings *)

Lemma ascii_compare_trans a b c :
  Ascii.compare a b <> Gt -> Ascii.compare b c <> Gt -> Ascii.compare a c <> Gt.
Proof.
  unfold Ascii.compare. rewrite !N.compare_gt_iff. lia.
Qed.

Lemma string_compare_trans a : forall b c,
  String.compare a b <> Gt -> String.compare b c <> Gt -> String.compare a c <> Gt.
Proof.
  induction a as [|x a IH]; intros [|y b] [|z c]; simpl; try congruence.
  destruct (Ascii.compare x y) eqn:Hxy; try congruence;
    destruct (Ascii.compare y z) eqn:Hyz; try congruence.
  - apply Ascii.compare_eq_iff in Hxy, Hyz. subst.
    assert (Ascii.compare z z = Eq) as ->
        by (unfold Ascii.compare; apply N.compare_refl).
    apply IH.
  - apply Ascii.compare_eq_iff in Hxy. subst. rewrite Hyz. congruence.
  - apply Ascii.compare_eq_iff in Hyz. subst. rewrite Hxy. congruence.
  - intros _ _.
    assert (Hlt : Ascii.compare x z = Lt).
    { unfold Ascii.compare in *. rewrite N.compare_lt_iff in *. lia. }
    rewrite Hlt. congruence.
Qed.

Lemma leb_trans a b c :
  PyStr.leb a b = true -> PyStr.leb b c = true -> PyStr.leb a c = true.
Proof.
  unfold PyStr.leb, String.leb. intros Hab Hbc.
  pose proof (string_compare_trans a b c) as Ht.
  destruct (String.compare a b), (String.compare b c), (String.compare a c);
    try discriminate; try reflexivity; exfalso; apply Ht; congruence.
Qed.

Lemma leb_refl a : PyStr.leb a a = true.
Proof. destruct (String.leb_total a a); assumption. Qed.

Lemma pair_leb_total a b : pair_leb a b = true \/ pair_leb b a = true.
Proof.
  unfold pair_leb. rewrite (String.eqb_sym (fst b) (fst a)).
  destruct (String.eqb (fst a) (fst b)); apply String.leb_total.
Qed.

Lemma pair_leb_trans a b c :
  pair_leb a b = true -> pair_leb b c = true -> pair_leb a c = true.
Proof.
  unfold pair_leb.
  destruct (String.eqb_spec (fst a) (fst b)) as [Hab|Hab],
           (String.eqb_spec (fst b) (fst c)) as [Hbc|Hbc],
           (String.eqb_spec (fst a) (fst c)) as [Hac|Hac];
    try congruence; intros H1 H2;
    first [ eapply leb_trans; eassumption
          | rewrite Hab; exact H2
          | rewrite <- Hbc; exact H1
          | exfalso; apply Hab; apply String.leb_antisym;
            [exact H1 | rewrite Hac; exact H2] ].
Qed.

Lemma pair_leb_fst a b : pair_leb a b = true -> PyStr.leb (fst a) (fst b) = true.
Proof.
  unfold pair_leb. destruct (String.eqb_spec (fst a) (fst b)) as [->|_]; [|auto].
  intros _. apply leb_refl.
Qed.

Lemma sorted_pairs_fst (P : list (string * string)) :
  StronglySorted (fun x y => pair_leb x y = true) P ->
  StronglySorted (fun x y => PyStr.leb x y = true) (map fst P).
Proof.
  induction 1 as [|p P Hs IH Hp]; simpl; constructor; [exact IH|].
  apply List.Forall_forall. intros k Hk. apply in_map_iff in Hk as (q & <- & Hq).
  rewrite List.Forall_forall in Hp. apply pair_leb_fst, Hp, Hq.
Qed.

(** Sorting the pairs sorts their first components. *)
Lemma py_sorted_pairs_fst (pairs : list (string * string)) :
  map fst (py_sorted pair_leb pairs) = py_sorted PyStr.leb (map fst pairs).
Proof.
  apply (sorted_perm_eq PyStr.leb String.leb_antisym).
  - apply sorted_pairs_fst. apply py_sorted_sorted; [apply pair_leb_total|apply pair_leb_trans].
  - apply py_sorted_sorted; [apply String.leb_total|apply leb_trans].
  - rewrite (py_sorted_perm PyStr.leb (map fst pairs)).
    apply Permutation_map. apply py_sorted_perm.
Qed.


(** ** The slice of a key in the sorted names *)

Lemma list_count_cons k y l :
  list_count k (y :: l) = if String.eqb k y then S (list_count k l) else list_count k l.
Proof. unfold list_count. simpl. destruct (String.eqb k y); reflexivity. Qed.

Lemma group_cons k p P :
  group k (p :: P) = if String.eqb k (fst p) then snd p :: group k P else group k P.
Proof. unfold group. simpl. destruct (String.eqb k (fst p)); reflexivity. Qed.

Lemma group_absent k (P : list (string * string)) :
  Forall (fun p => fst p <> k) P ->
  list_count k (map fst P) = 0 /\ group k P = [].
Proof.
  induction 1 as [|p P Hp _ [IH1 IH2]]; [split; reflexivity|].
  simpl. rewrite list_count_cons, group_cons.
  destruct (String.eqb_spec k (fst p)) as [->|_]; [contradiction|]. auto.
Qed.

Lemma group_prefix k (P : list (string * string)) :
  leb_sorted (map fst P) ->
  Forall (fun p => PyStr.leb k (fst p) = true) P ->
  firstn (list_count k (map fst P)) (map snd P) = group k P.
Proof.
  induction P as [|p P IH]; simpl; intros Hs Hk; [reflexivity|].
  inversion Hs as [|x l Hs' Hp]; subst. inversion Hk as [|x l Hkp Hk']; subst.
  rewrite list_count_cons, group_cons.
  destruct (String.eqb_spec k (fst p)) as [Heq|Hne].
  - simpl. f_equal. apply IH; assumption.
  - destruct (group_absent k P) as [-> ->]; [|reflexivity].
    apply List.Forall_forall. intros q Hq Hqk.
    rewrite List.Forall_forall in Hp.
    apply Hne. apply String.leb_antisym; [exact Hkp|].
    rewrite <- Hqk. apply Hp. apply in_map. exact Hq.
Qed.

Lemma group_slice k (P : list (string * string)) start :
  leb_sorted (map fst P) ->
  list_index k (map fst P) = Ok start ->
  slice start (list_count k (map fst P)) (map snd P) = group k P.
Proof.
  revert start. induction P as [|p P IH]; simpl; intros start Hs Hi; [discriminate|].
  inversion Hs as [|x l Hs' Hp]; subst.
  rewrite list_count_cons, group_cons.
  destruct (String.eqb_spec k (fst p)) as [Heq|Hne].
  - injection Hi as <-. unfold slice. simpl. f_equal.
    apply group_prefix; [exact Hs'|].
    apply List.Forall_forall. intros q Hq. rewrite List.Forall_forall in Hp.
    rewrite Heq. apply Hp. apply in_map. exact Hq.
  - destruct (list_index k (map fst P)) as [i|] eqn:Hidx; simpl in Hi; [|discriminate].
    injection Hi as <-. unfold slice. simpl. apply (IH i Hs' eq_refl).
Qed.

Lemma list_index_In k l : In k l -> exists i, list_index k l = Ok i.
Proof.
  induction l as [|y l IH]; simpl; [contradiction|]. intros Hin.
  destruct (String.eqb_spec k y) as [|Hne]; [eauto|].
  destruct Hin as [->|Hin]; [contradiction|].
  destruct (IH Hin) as [i ->]. simpl. eauto.
Qed.

(** ** The dictionary built by the loop *)

Lemma fill_trans_lookup (P : list (string * string)) keys :
  leb_sorted (map fst P) ->
  Forall (fun k => In k (map fst P)) keys ->
  forall m : gmap string (list string),
  exists m', fill_trans (map fst P) (map snd P) keys m = Ok m' /\
             forall k, (In k keys -> m' !! k = Some (group k P)) /\
                       (~ In k keys -> m' !! k = m !! k).
Proof.
  intros Hs. induction 1 as [|n keys Hn _ IH]; intros m.
  - exists m. split; [reflexivity|]. intros k. split; [intros []|reflexivity].
  - simpl. destruct (list_index_In n _ Hn) as [i Hi]. rewrite Hi. simpl.
    rewrite (group_slice n P i Hs Hi).
    destruct (IH (<[n := group n P]> m)) as (m' & Hm' & Hlook).
    exists m'. split; [exact Hm'|]. intros k. destruct (Hlook k) as [Hin Hout].
    destruct (in_dec string_dec k keys) as [Hk|Hk].
    + split; [intros _; exact (Hin Hk)|]. intros Hn'. exfalso. apply Hn'. right. exact Hk.
    + rewrite (Hout Hk). destruct (string_dec n k) as [->|Hne].
      * rewrite lookup_insert_eq. split; [reflexivity|].
        intros Hn'. exfalso. apply Hn'. left. reflexivity.
      * rewrite lookup_insert_ne by exact Hne. split; [|reflexivity].
        intros [?|?]; [congruence|contradiction].
Qed.

(** ** The groups partition the pairs *)

Lemma mem_In k keys : mem k keys = true <-> In k keys.
Proof.
  unfold mem. rewrite existsb_exists. split.
  - intros (x & Hx & Heq). apply String.eqb_eq in Heq. congruence.
  - intros Hin. exists k. split; [exact Hin|apply String.eqb_refl].
Qed.

Lemma group_keys_perm (P : list (string * string)) keys :
  List.NoDup keys ->
  Permutation (concat (map (fun k => group k P) keys))
              (map snd (List.filter (fun p => mem (fst p) keys) P)).
Proof.
  induction 1 as [|k keys Hk Hnd IH]; simpl.
  - induction P as [|p P IHP]; simpl; [reflexivity|exact IHP].
  - rewrite IH. clear IH. unfold group.
    induction P as [|p P IHP]; simpl; [reflexivity|].
    rewrite (String.eqb_sym (fst p) k).
    destruct (String.eqb_spec k (fst p)) as [Heq|Hne]; simpl.
    + assert (mem (fst p) keys = false) as ->.
      { destruct (mem (fst p) keys) eqn:E; [|reflexivity].
        apply mem_In in E. rewrite <- Heq in E. contradiction. }
      apply perm_skip. exact IHP.
    + destruct (mem (fst p) keys); simpl; [|exact IHP].
      rewrite <- IHP. symmetry. apply Permutation_middle.
Qed.

Lemma filter_all {A} (f : A -> bool) l :
  Forall (fun x => f x = true) l -> List.filter f l = l.
Proof.
  induction 1 as [|x l Hx _ IH]; simpl; [reflexivity|]. rewrite Hx, IH. reflexivity.
Qed.


(** ** The category is read off the column name *)

Lemma series_type_classify series defs bc w k out :
  series_type series defs bc w = Ok (k, out) -> k = classify (s_name series) defs.
Proof.
  unfold classify. induction defs as [|[key [strs b]] defs IH]; simpl.
  - intros [= <- _]. reflexivity.
  - assert (Hs : match series_type_strs series key b bc w strs with
                 | Some r =>
                     (forall k' out', r = Ok (k', out') -> k' = key) /\
                     series_type_strs {| s_name := s_name series; s_values := [] |}
                                      key b false false strs = Some (Ok (key, []))
                 | None =>
                     series_type_strs {| s_name := s_name series; s_values := [] |}
                                      key b false false strs = None
                 end).
    { induction strs as [|s strs IHs]; simpl; [reflexivity|].
      destruct (PyStr.find _ _); [|exact IHs].
      split; [|reflexivity]. intros k' out'. apply series_type_match_key. }
    destruct (series_type_strs series key b bc w strs) as [r|].
    + destruct Hs as [Hk ->]. intros Hr. apply (Hk _ _ Hr).
    + rewrite Hs. exact IH.
Qed.

Lemma classify_unmatched name defs :
  Forall (no_match name) defs -> classify name defs = EmptyString.
Proof.
  unfold classify. induction 1 as [|[key [strs b]] defs Hk _ IH]; simpl; [reflexivity|].
  rewrite series_type_strs_none by exact Hk. exact IH.
Qed.

Lemma series_type_unchecked series defs w :
  exists k out, series_type series defs false w = Ok (k, out).
Proof.
  induction defs as [|[key [strs b]] defs IH]; simpl; [eauto|].
  assert (Hs : match series_type_strs series key b false w strs with
               | Some r => r = Ok (key, [])
               | None => True
               end).
  { induction strs as [|s strs IHs]; simpl; [exact I|].
    destruct (PyStr.find _ _); [reflexivity|exact IHs]. }
  destruct (series_type_strs series key b false w strs) as [r|]; [|exact IH].
  rewrite Hs. eauto.
Qed.

(** ** One result per column *)

Lemma map_result_Forall2 {A B} (f : A -> result B) l ys :
  map_result f l = Ok ys -> Forall2 (fun x y => f x = Ok y) l ys.
Proof.
  revert ys. induction l as [|x l IH]; simpl; intros ys Hm.
  - injection Hm as <-. constructor.
  - destruct (f x) as [y|] eqn:Hy; simpl in Hm; [|discriminate].
    destruct (map_result f l) as [ys'|]; simpl in Hm; [|discriminate].
    injection Hm as <-. constructor; [exact Hy|]. apply IH. reflexivity.
Qed.

Lemma map_result_ok {A B} (f : A -> result B) l :
  Forall (fun x => is_ok (f x) = true) l -> is_ok (map_result f l) = true.
Proof.
  induction 1 as [|x l Hx _ IH]; simpl; [reflexivity|].
  destruct (f x); [|discriminate]. simpl.
  destruct (map_result f l); [reflexivity|discriminate].
Qed.

Lemma Forall2_seq_nth {B} (Q : string -> B -> Prop) pre cols ys :
  Forall2 (fun j y => Q (nth j (pre ++ cols) EmptyString) y)
          (seq (length pre) (length cols)) ys ->
  Forall2 Q cols ys.
Proof.
  revert pre ys. induction cols as [|c cols IH]; simpl; intros pre ys HF.
  - inversion HF. constructor.
  - inversion HF as [|j y js ys' Hy Hrest]; subst. constructor.
    + rewrite app_nth2, Nat.sub_diag in Hy by lia. exact Hy.
    + apply (IH (pre ++ [c])). rewrite length_app, Nat.add_1_r. simpl.
      rewrite <- app_assoc. exact Hrest.
Qed.

Lemma apply_series_type_keys d defs bc w res :
  apply_series_type d defs bc w = Ok res ->
  Forall2 (fun c r => fst r = classify c defs) (columns d) res.
Proof.
  unfold apply_series_type.
  destruct ((length (columns d) =? 0)%nat || (shape0 d =? 0)%nat); [discriminate|].
  intros Hm. apply map_result_Forall2 in Hm.
  apply (Forall2_seq_nth _ []). simpl.
  eapply Forall2_impl; [exact Hm|].
  intros j [k out] Hj. simpl. apply (series_type_classify _ _ _ _ _ _ Hj).
Qed.

Lemma zip3_keys cols (r1 r2 r3 : list (string * list printed)) :
  Forall2 (fun c r => fst r = classify c type_defs) cols r1 ->
  Forall2 (fun c r => fst r = classify c sub_type_defs) cols r2 ->
  Forall2 (fun c r => fst r = classify c irr_sensors_defs) cols r3 ->
  map (fun '(typ, sub_typ, irr_typ) => group_key (fst typ) (fst sub_typ) (fst irr_typ))
      (zip3 r1 r2 r3)
  = map key_of_name cols.
Proof.
  intros H1. revert r2 r3. induction H1 as [|c a cols r1 Ha _ IH]; intros r2 r3 H2 H3.
  - inversion H2; inversion H3; reflexivity.
  - inversion H2 as [|? b ? r2' Hb H2']; inversion H3 as [|? e ? r3' He H3']; subst.
    simpl. rewrite Ha, Hb, He. f_equal. apply IH; assumption.
Qed.

Lemma combine_map_self {A B} (f : A -> B) l :
  combine (map f l) l = map (fun c => (f c, c)) l.
Proof. induction l as [|x l IH]; simpl; [reflexivity|]. f_equal. exact IH. Qed.

(** ** The mapping *)

Lemma sorted_names_fst cols :
  map fst (sorted_names cols) = py_sorted PyStr.leb (map key_of_name cols).
Proof.
  unfold sorted_names. rewrite py_sorted_pairs_fst, map_map. simpl. reflexivity.
Qed.

Lemma sorted_names_In cols k c :
  In (k, c) (sorted_names cols) <-> In c cols /\ k = key_of_name c.
Proof.
  unfold sorted_names. split.
  - intros Hin. eapply Permutation_in in Hin; [|apply py_sorted_perm].
    apply in_map_iff in Hin as (c' & [= <- <-] & Hc). auto.
  - intros [Hc ->]. eapply Permutation_in; [symmetry; apply py_sorted_perm|].
    apply in_map_iff. eauto.
Qed.

Lemma group_keys_In cols k :
  In k (group_keys cols) <-> exists c, In c cols /\ k = key_of_name c.
Proof.
  unfold group_keys, sorted_set. split.
  - intros Hin. eapply Permutation_in in Hin; [|apply py_sorted_perm].
    apply nodup_In in Hin. eapply Permutation_in in Hin; [|apply py_sorted_perm].
    apply in_map_iff in Hin as (c & <- & Hc). eauto.
  - intros (c & Hc & ->). eapply Permutation_in; [symmetry; apply py_sorted_perm|].
    apply nodup_In. eapply Permutation_in; [symmetry; apply py_sorted_perm|].
    apply in_map. exact Hc.
Qed.

Lemma group_keys_NoDup cols : List.NoDup (group_keys cols).
Proof.
  unfold group_keys, sorted_set.
  eapply Permutation_NoDup; [symmetry; apply py_sorted_perm|]. apply NoDup_nodup.
Qed.

Lemma group_In k cols c :
  In c (group k (sorted_names cols)) <-> In c cols /\ k = key_of_name c.
Proof.
  unfold group. rewrite in_map_iff. split.
  - intros ([k' c'] & Heq & Hin). simpl in Heq. subst c'.
    apply filter_In in Hin as [Hin Hk]. simpl in Hk. apply String.eqb_eq in Hk. subst k'.
    apply sorted_names_In. exact Hin.
  - intros Hc. exists (k, c). split; [reflexivity|]. apply filter_In.
    split; [apply sorted_names_In; exact Hc|]. simpl. apply String.eqb_refl.
Qed.

Lemma set_trans_inv d trans_report t :
  set_trans d trans_report = Ok t ->
  forall k, (In k (group_keys (columns d)) ->
             t_trans t !! k = Some (group k (sorted_names (columns d)))) /\
            (~ In k (group_keys (columns d)) -> t_trans t !! k = None).
Proof.
  unfold set_trans. intros Hset.
  destruct (apply_series_type d type_defs true trans_report) as [r1|] eqn:H1;
    simpl in Hset; [|discriminate].
  destruct (apply_series_type d sub_type_defs false false) as [r2|] eqn:H2;
    simpl in Hset; [|discriminate].
  destruct (apply_series_type d irr_sensors_defs false false) as [r3|] eqn:H3;
    simpl in Hset; [|discriminate].
  apply apply_series_type_keys in H1, H2, H3.
  rewrite (zip3_keys _ _ _ _ H1 H2 H3) in Hset.
  rewrite combine_map_self in Hset.
  fold (sorted_names (columns d)) in Hset. fold (group_keys (columns d)) in Hset.
  rewrite <- sorted_names_fst in Hset.
  destruct (fill_trans_lookup (sorted_names (columns d)) (group_keys (columns d))) with (m := (∅ : gmap string (list string)))
    as (m' & Hm' & Hlook).
  - rewrite sorted_names_fst.
    apply py_sorted_sorted; [apply String.leb_total|apply leb_trans].
  - apply List.Forall_forall. intros k Hk. rewrite sorted_names_fst.
    apply group_keys_In in Hk as (c & Hc & ->).
    eapply Permutation_in; [symmetry; apply py_sorted_perm|]. apply in_map. exact Hc.
  - rewrite Hm' in Hset. simpl in Hset. injection Hset as <-. simpl.
    intros k. destruct (Hlook k) as [Hin Hout]. split; [exact Hin|].
    intros Hk. rewrite (Hout Hk). apply lookup_empty.
Qed.


(** C4. The mapping [__set_trans] produces partitions the raw columns: every
    column is in the list of exactly one key; the lists hold raw columns only;
    a column in which no search string is found is under the key [--], made
    of three empty labels; and the lists of the keys, put end to end, are a
    rearrangement of the columns, so that no column is listed twice. *)
Theorem set_trans_partition d trans_report t :
  set_trans d trans_report = Ok t ->
  (forall c, In c (columns d) ->
     exists k, (exists l, t_trans t !! k = Some l /\ In c l) /\
               forall k' l', t_trans t !! k' = Some l' -> In c l' -> k' = k) /\
  (forall k l c, t_trans t !! k = Some l -> In c l -> In c (columns d)) /\
  (forall c, In c (columns d) -> unclassified c ->
     exists l, t_trans t !! "--"%string = Some l /\ In c l) /\
  exists keys,
    List.NoDup keys /\
    (forall k, In k keys <-> is_Some (t_trans t !! k)) /\
    Permutation (concat (map (fun k => default [] (t_trans t !! k)) keys)) (columns d).
Proof.
  intros Hset. pose proof (set_trans_inv d trans_report t Hset) as Hlook.
  assert (Hsome : forall k l, t_trans t !! k = Some l ->
                    In k (group_keys (columns d)) /\ l = group k (sorted_names (columns d))).
  { intros k l Hk. destruct (Hlook k) as [Hin Hout].
    destruct (in_dec string_dec k (group_keys (columns d))) as [Hd|Hd].
    - split; [exact Hd|]. rewrite (Hin Hd) in Hk. congruence.
    - rewrite (Hout Hd) in Hk. discriminate. }
  assert (Hcol : forall c, In c (columns d) ->
                   exists l, t_trans t !! key_of_name c = Some l /\ In c l).
  { intros c Hc. exists (group (key_of_name c) (sorted_names (columns d))). split.
    - apply Hlook. apply group_keys_In. eauto.
    - apply group_In. auto. }
  split; [|split; [|split]].
  - intros c Hc. exists (key_of_name c). split; [apply Hcol; exact Hc|].
    intros k' l' Hk' Hin. destruct (Hsome _ _ Hk') as [_ ->].
    apply group_In in Hin. apply Hin.
  - intros k l c Hk Hin. destruct (Hsome _ _ Hk) as [_ ->].
    apply group_In in Hin. apply Hin.
  - intros c Hc (H1 & H2 & H3).
    replace "--"%string with (key_of_name c); [apply Hcol; exact Hc|].
    unfold key_of_name. rewrite !classify_unmatched by assumption. reflexivity.
  - exists (group_keys (columns d)). split; [apply group_keys_NoDup|]. split.
    + intros k. split.
      * intros Hk. destruct (Hlook k) as [Hin _]. rewrite (Hin Hk). eauto.
      * intros [l Hl]. apply (Hsome _ _ Hl).
    + rewrite (map_ext_in _ (fun k => group k (sorted_names (columns d)))).
      2:{ intros k Hk. destruct (Hlook k) as [Hin _]. rewrite (Hin Hk). reflexivity. }
      rewrite group_keys_perm by apply group_keys_NoDup.
      rewrite filter_all.
      * unfold sorted_names. rewrite (py_sorted_perm pair_leb), map_map. simpl.
        rewrite map_id. reflexivity.
      * apply List.Forall_forall. intros [k c] Hin. simpl. apply mem_In.
        apply sorted_names_In in Hin as [Hc ->]. apply group_keys_In. eauto.
Qed.

(** The mapping is produced whenever the table has a column and a row and
    the classifier returns on every column: sorting and grouping never fail. *)
Theorem set_trans_returns d trans_report :
  columns d <> [] -> rows d <> [] ->
  (forall j, (j < length (columns d))%nat ->
             is_ok (series_type (column_series d j) type_defs true trans_report) = true) ->
  is_ok (set_trans d trans_report) = true.
Proof.
  intros Hc Hr Hok.
  assert (Hguard : ((length (columns d) =? 0)%nat || (shape0 d =? 0)%nat) = false).
  { unfold shape0. destruct (columns d), (rows d); try contradiction; reflexivity. }
  assert (H1 : is_ok (apply_series_type d type_defs true trans_report) = true).
  { unfold apply_series_type. rewrite Hguard. apply map_result_ok.
    apply List.Forall_forall. intros j Hj. apply in_seq in Hj. apply Hok. lia. }
  assert (Hu : forall defs, is_ok (apply_series_type d defs false false) = true).
  { intros defs. unfold apply_series_type. rewrite Hguard. apply map_result_ok.
    apply List.Forall_forall. intros j _.
    destruct (series_type_unchecked (column_series d j) defs false) as (k & out & ->).
    reflexivity. }
  destruct (set_trans d trans_report) as [t|e] eqn:Hset; [reflexivity|exfalso].
  unfold set_trans in Hset.
  destruct (apply_series_type d type_defs true trans_report) as [r1|] eqn:E1;
    [|discriminate].
  pose proof (Hu sub_type_defs) as H2. pose proof (Hu irr_sensors_defs) as H3.
  destruct (apply_series_type d sub_type_defs false false) as [r2|] eqn:E2; [|discriminate].
  destruct (apply_series_type d irr_sensors_defs false false) as [r3|] eqn:E3; [|discriminate].
  simpl in Hset.
  apply apply_series_type_keys in E1, E2, E3.
  rewrite (zip3_keys _ _ _ _ E1 E2 E3) in Hset.
  rewrite combine_map_self in Hset.
  fold (sorted_names (columns d)) in Hset. fold (group_keys (columns d)) in Hset.
  rewrite <- sorted_names_fst in Hset.
  destruct (fill_trans_lookup (sorted_names (columns d)) (group_keys (columns d)))
    with (m := (∅ : gmap string (list string))) as (m' & Hm' & _).
  - rewrite sorted_names_fst.
    apply py_sorted_sorted; [apply String.leb_total|apply leb_trans].
  - apply List.Forall_forall. intros k Hk. rewrite sorted_names_fst.
    apply group_keys_In in Hk as (c & Hc' & ->).
    eapply Permutation_in; [symmetry; apply py_sorted_perm|]. apply in_map. exact Hc'.
  - rewrite Hm' in Hset. discriminate.
Qed.

Lemma set_trans_returns_witness : is_ok (set_trans three_columns true) = true.
Proof.
  apply set_trans_returns.
  - discriminate.
  - discriminate.
  - intros j Hj. simpl in Hj.
    destruct j as [|[|[|j]]]; [reflexivity | reflexivity | reflexivity | lia].
Defined.

Lemma set_trans_partition_witness :
  exists t, set_trans three_columns true = Ok t /\
  t_trans t !! "irr-poa-"%string = Some ["POA irradiance"%string] /\
  t_trans t !! "--"%string = Some ["flag"%string] /\
  ((forall c, In c (columns three_columns) ->
     exists k, (exists l, t_trans t !! k = Some l /\ In c l) /\
               forall k' l', t_trans t !! k' = Some l' -> In c l' -> k' = k) /\
  (forall k l c, t_trans t !! k = Some l -> In c l -> In c (columns three_columns)) /\
  (forall c, In c (columns three_columns) -> unclassified c ->
     exists l, t_trans t !! "--"%string = Some l /\ In c l) /\
  exists keys,
    List.NoDup keys /\
    (forall k, In k keys <-> is_Some (t_trans t !! k)) /\
    Permutation (concat (map (fun k => default [] (t_trans t !! k)) keys))
                (columns three_columns)).
Proof.
  eexists. split; [vm_compute; reflexivity|].
  split; [vm_compute; reflexivity|]. split; [vm_compute; reflexivity|].
  apply (set_trans_partition three_columns true). vm_compute. reflexivity.
Defined.


(** A method that reads and writes nothing but the working table. *)
Local Open Scope Z_scope.

(* ===================================================================== *)
(** * Properties of the audit decorator *)
(* ===================================================================== *)

Lemma filter_irr_body_keeps_trail : keeps_trail filter_irr_body.
Proof.
  intros args kwargs st. unfold filter_irr_body.
  destruct (bind_params _ _ _) as [vs|]; [|split; reflexivity].
  destruct vs as [|low [|high [|ref_val [|col_name [|inplace [|]]]]]]; try (split; reflexivity).
  destruct (choose_irr_col _ _) as [[c|n]|]; try (split; reflexivity).
  destruct (df_flt _); [|split; reflexivity].
  destruct (flt_irr _ _ _ _ _); [|split; reflexivity].
  simpl. destruct (truthy inplace); split; reflexivity.
Qed.

Section Decorator.
Context `{PyRuntime}.

Lemma update_summary_inv fname func args kwargs st st' ret :
  update_summary fname func args kwargs st = (st', Ok ret) ->
  exists r st2 r2,
    df_flt (st_self st) = Some r /\
    let empty := (shape0 (deref st r) =? 0)%nat in
    let counted := if empty then shape0 (deref st (df (st_self st)))
                   else shape0 (deref st r) in
    let st1 := if empty
               then with_self st (append_summary (st_self st)
                                    (name (st_self st), "count"%string)
                                    (count_entry counted))
               else st in
    func args kwargs st1 = (st2, Ok ret) /\
    df_flt (st_self st2) = Some r2 /\
    st' = with_self st2
            (append_summary (st_self st2) (name (st_self st2), fname)
               (call_entry counted (shape0 (deref st2 r2)) args kwargs)).
Proof.
  unfold update_summary. intros Hrun.
  destruct (df_flt (st_self st)) as [r|] eqn:Hr; [|discriminate].
  destruct (shape0 (deref st r) =? 0)%nat eqn:Hempty.
  - destruct (func args kwargs _) as [st2 [v|e]] eqn:Hf; [|discriminate].
    destruct (df_flt (st_self st2)) as [r2|] eqn:Hr2; [|discriminate].
    inversion Hrun; subst. exists r, st2, r2. simpl. rewrite Hempty.
    repeat split; assumption.
  - destruct (func args kwargs st) as [st2 [v|e]] eqn:Hf; [|discriminate].
    destruct (df_flt (st_self st2)) as [r2|] eqn:Hr2; [|discriminate].
    inversion Hrun; subst. exists r, st2, r2. simpl. rewrite Hempty.
    repeat split; assumption.
Qed.

(** C1, amended. A call of a decorated method that returns appends the entry
    of the call (rows left, rows counted before minus rows left, argument
    string) as the last entry of the audit trail. When the working table has
    no row as the call starts, one entry [count] (rows of the raw table, zero
    removed, no filters) is appended before it, and the rows counted before
    are those of the raw table; otherwise nothing else is appended. *)
Theorem update_summary_entries fname func args kwargs st st' ret :
  keeps_trail func ->
  update_summary fname func args kwargs st = (st', Ok ret) ->
  exists r r',
    df_flt (st_self st) = Some r /\ df_flt (st_self st') = Some r' /\
    let empty := (shape0 (deref st r) =? 0)%nat in
    let counted := if empty then shape0 (deref st (df (st_self st)))
                   else shape0 (deref st r) in
    summary (st_self st')
    = summary (st_self st)
        ++ (if empty then [count_entry counted] else [])
        ++ [call_entry counted (shape0 (deref st' r')) args kwargs]
    /\ summary_ix (st_self st')
       = summary_ix (st_self st)
           ++ (if empty then [(name (st_self st), "count"%string)] else [])
           ++ [(name (st_self st'), fname)].
Proof.
  intros Hkeep Hrun.
  apply update_summary_inv in Hrun as (r & st2 & r2 & Hr & Hf & Hr2 & ->).
  exists r, r2. split; [exact Hr|]. split; [exact Hr2|].
  cbv zeta in *.
  destruct (shape0 (deref st r) =? 0)%nat eqn:Hempty.
  - pose proof (Hkeep args kwargs
                  (with_self st (append_summary (st_self st)
                     (name (st_self st), "count"%string)
                     (count_entry (shape0 (deref st (df (st_self st)))))))) as [Hs Hix].
    rewrite Hf in Hs, Hix. simpl in Hs, Hix. simpl.
    rewrite Hs, Hix. rewrite <- !app_assoc. split; reflexivity.
  - pose proof (Hkeep args kwargs st) as [Hs Hix].
    rewrite Hf in Hs, Hix. simpl in Hs, Hix. simpl.
    rewrite Hs, Hix. split; reflexivity.
Qed.


End Decorator.

Lemma update_summary_entries_witness :
  let st := state_of two_rows two_rows in
  let st' := run_call (H:=example_runtime) call_800_1200 st in
  exists r r',
    df_flt (st_self st) = Some r /\ df_flt (st_self st') = Some r' /\
    let empty := (shape0 (deref st r) =? 0)%nat in
    let counted := if empty then shape0 (deref st (df (st_self st)))
                   else shape0 (deref st r) in
    summary (st_self st')
    = summary (st_self st)
        ++ (if empty then [count_entry counted] else [])
        ++ [call_entry (H:=example_runtime) counted (shape0 (deref st' r'))
              (fst call_800_1200) (snd call_800_1200)]
    /\ summary_ix (st_self st')
       = summary_ix (st_self st)
           ++ (if empty then [(name (st_self st), "count"%string)] else [])
           ++ [(name (st_self st'), "filter_irr"%string)].
Proof.
  intros st st'.
  apply (update_summary_entries (H:=example_runtime) "filter_irr" filter_irr_body
           (fst call_800_1200) (snd call_800_1200) st st' PNone).
  - exact filter_irr_body_keeps_trail.
  - vm_compute. reflexivity.
Defined.


(* ===================================================================== *)
(** * Properties of the irradiance filter *)
(* ===================================================================== *)

(** ** Label-based selection on a table with distinct labels *)

Lemma filter_label_absent (rs : list (Z * list cell)) l :
  ~ In l (map fst rs) -> List.filter (fun r => Z.eqb (fst r) l) rs = [].
Proof.
  induction rs as [|r rs IH]; cbn [List.filter map]; intros Hn; [reflexivity|].
  destruct (Z.eqb_spec (fst r) l) as [Heq|_]; [exfalso; apply Hn; left; congruence|].
  apply IH. intros Hin. apply Hn. right. exact Hin.
Qed.

Lemma loc_rows_skip (r : Z * list cell) rs indx :
  ~ In (fst r) indx ->
  flat_map (fun l => List.filter (fun r' => Z.eqb (fst r') l) (r :: rs)) indx
  = flat_map (fun l => List.filter (fun r' => Z.eqb (fst r') l) rs) indx.
Proof.
  induction indx as [|l indx IH]; cbn [flat_map List.filter]; intros Hn; [reflexivity|].
  destruct (Z.eqb_spec (fst r) l) as [Heq|_]; [exfalso; apply Hn; left; congruence|].
  f_equal. apply IH. intros Hin. apply Hn. right. exact Hin.
Qed.

Lemma filter_label_head (r : Z * list cell) rs :
  ~ In (fst r) (map fst rs) ->
  List.filter (fun r' => Z.eqb (fst r') (fst r)) (r :: rs) = [r].
Proof.
  intros Hn. cbn [List.filter]. rewrite Z.eqb_refl.
  rewrite (filter_label_absent rs (fst r) Hn). reflexivity.
Qed.

Lemma loc_rows_filter (P : Z * list cell -> bool) rs :
  List.NoDup (map fst rs) ->
  flat_map (fun l => List.filter (fun r => Z.eqb (fst r) l) rs) (map fst (List.filter P rs))
  = List.filter P rs.
Proof.
  induction rs as [|r rs IH]; intros Hnd; [reflexivity|].
  cbn [map] in Hnd. inversion Hnd as [|x l Hnotin Hnd']; subst.
  assert (Hskip : ~ In (fst r) (map fst (List.filter P rs))).
  { intros Hin. apply Hnotin. apply in_map_iff in Hin as (r' & Hr' & Hin).
    apply filter_In in Hin as [Hin _]. apply in_map_iff. eauto. }
  change (List.filter P (r :: rs))
    with (if P r then r :: List.filter P rs else List.filter P rs).
  destruct (P r).
  - cbn [map flat_map]. rewrite (filter_label_head r rs Hnotin).
    cbn [app]. f_equal. rewrite loc_rows_skip by exact Hskip. apply IH. exact Hnd'.
  - rewrite loc_rows_skip by exact Hskip. apply IH. exact Hnd'.
Qed.

(** ** The query on a numeric column *)

Lemma query_band_numeric lo hi j rs :
  numeric_at j rs -> query_band lo hi j rs = Ok (List.filter (band lo hi j) rs).
Proof.
  induction 1 as [|r rs [v Hv] _ IH]; simpl; [reflexivity|].
  unfold band at 1. rewrite Hv. simpl. rewrite IH. simpl. reflexivity.
Qed.

(** ** Which column the query sees *)

Lemma resolve_column_none x cols :
  (forall j, nth_error cols j <> Some x) -> resolve_column x cols = None.
Proof.
  induction cols as [|c cols IH]; simpl; intros Hn; [reflexivity|].
  rewrite IH by (intros j; apply (Hn (S j))).
  destruct (String.eqb_spec c x) as [->|_]; [|reflexivity].
  exfalso. apply (Hn 0%nat). reflexivity.
Qed.

Lemma resolve_column_unique x cols j :
  nth_error cols j = Some x ->
  (forall j', nth_error cols j' = Some x -> j' = j) ->
  resolve_column x cols = Some j.
Proof.
  revert j. induction cols as [|c cols IH]; intros j Hj Huniq.
  - destruct j; discriminate.
  - simpl. destruct j as [|k].
    + simpl in Hj. injection Hj as ->.
      rewrite resolve_column_none.
      * rewrite String.eqb_refl. reflexivity.
      * intros j' Hj'. specialize (Huniq (S j') Hj'). discriminate.
    + simpl in Hj. rewrite (IH k Hj); [reflexivity|].
      intros j' Hj'. specialize (Huniq (S j') Hj'). lia.
Qed.

Lemma resolve_renamed d irr_col j :
  irradiance_column d irr_col j ->
  resolve_column "poa" (rename_poa (Some irr_col) (columns d)) = Some j.
Proof.
  intros [Hj Huniq]. apply resolve_column_unique.
  - unfold rename_poa. rewrite nth_error_map, Hj. simpl.
    rewrite String.eqb_refl. reflexivity.
  - intros j' Hj'. unfold rename_poa in Hj'. rewrite nth_error_map in Hj'.
    destruct (nth_error (columns d) j') as [c|] eqn:Hc; [|discriminate].
    simpl in Hj'. apply (Huniq j' c Hc).
    destruct (String.eqb_spec c irr_col) as [->|_]; [left; reflexivity|].
    right. congruence.
Qed.





Lemma deref_alloc_new st d :
  deref (with_store st (fst (alloc d (st_store st)))) (snd (alloc d (st_store st))) = d.
Proof. unfold deref, alloc, with_store. simpl. rewrite Nat.eqb_refl. reflexivity. Qed.

Lemma deref_alloc_old st d r :
  (r < next_ref (st_store st))%nat ->
  deref (with_store st (fst (alloc d (st_store st)))) r = deref st r.
Proof.
  intros Hr. unfold deref, alloc, with_store. simpl.
  destruct (Nat.eqb_spec r (next_ref (st_store st))); [lia | reflexivity].
Qed.

Section Band.
Context `{PyRuntime}.


End Band.



(** ** Inputs on which the audit trail and the filter behave otherwise *)

(** C1, as written, fails. From the state in which no filter has run, on a
    table of two rows, a filter call appends its own entry and no [count]
    entry; the [count] entry comes with a call that finds the working table
    empty, here after a filter has removed every row; and a call that raises
    (no column is named and [reg_trans] has no [poa]) appends nothing. *)
Lemma pristine_filter_adds_no_count_entry :
  pristine (state_of two_rows two_rows) /\
  summary (st_self (run_call (H:=example_runtime) call_800_1200 (state_of two_rows two_rows)))
  = [ {| pts_before_filter := 1; pts_removed := 1;
         filter_arguments := "(800, 1200), 'col_name': 'poa'" |} ] /\
  (let emptied := run_call (H:=example_runtime) call_5000_6000 (state_of two_rows two_rows) in
   summary (st_self emptied)
   = [ {| pts_before_filter := 0; pts_removed := 2;
          filter_arguments := "(5000, 6000), 'col_name': 'poa'" |} ] /\
   summary (st_self (run_call (H:=example_runtime) call_800_1200 emptied))
   = summary (st_self emptied)
       ++ [ {| pts_before_filter := 2; pts_removed := 0; filter_arguments := "no filters" |};
            {| pts_before_filter := 0; pts_removed := 2;
               filter_arguments := "(800, 1200), 'col_name': 'poa'" |} ]) /\
  (let raised := filter_irr (H:=example_runtime) [PInt 800; PInt 1200] []
                            (state_of two_rows two_rows) in
   snd raised = Raise KeyError /\ summary (st_self (fst raised)) = []).
Proof.
  split; [|split; [|split]].
  - exists 1%nat. repeat split; reflexivity.
  - vm_compute. reflexivity.
  - split; vm_compute; reflexivity.
  - split; vm_compute; reflexivity.
Qed.


(* ===================================================================== *)
(** * The raw table, the working table and their identity *)
(* ===================================================================== *)

(** ** What a filter call changes *)

Lemma filter_irr_body_effect args kwargs st :
  same_fixed_attributes (st_self st) (st_self (fst (filter_irr_body args kwargs st))) /\
  filter_effect st (fst (filter_irr_body args kwargs st)).
Proof.
  unfold filter_irr_body.
  destruct (bind_params _ _ _) as [vs|];
    [|split; [repeat split | left; split; reflexivity]].
  destruct vs as [|low [|high [|ref_val [|col_name [|inplace [|]]]]]];
    try (split; [repeat split | left; split; reflexivity]).
  destruct (choose_irr_col _ _) as [[c|n]|];
    try (split; [repeat split | left; split; reflexivity]).
  destruct (df_flt (st_self st)) as [r|] eqn:Hr;
    [|split; [repeat split | left; split; [reflexivity|simpl; congruence]]].
  destruct (flt_irr _ _ _ _ _) as [d|] eqn:Hd;
    [|split; [repeat split | left; split; [reflexivity|simpl; congruence]]].
  cbn [alloc]. destruct (truthy inplace); cbn [fst]; (split; [repeat split|]).
  - right. exists r, d, c, low, high, ref_val. repeat split; try assumption.
    right. reflexivity.
  - right. exists r, d, c, low, high, ref_val. repeat split; try assumption.
    left. simpl. congruence.
Qed.

Section Frame.
Context `{PyRuntime}.

Lemma filter_irr_effect args kwargs st :
  same_fixed_attributes (st_self st) (st_self (fst (filter_irr args kwargs st))) /\
  filter_effect st (fst (filter_irr args kwargs st)).
Proof.
  unfold filter_irr, update_summary.
  destruct (df_flt (st_self st)) as [r|] eqn:Hr;
    [|split; [repeat split | left; split; [reflexivity|simpl; congruence]]].
  destruct (shape0 (deref st r) =? 0)%nat;
    match goal with
    | |- context [filter_irr_body args kwargs ?s] =>
        pose proof (filter_irr_body_effect args kwargs s) as [Ha He];
        destruct (filter_irr_body args kwargs s) as [st2 [v|e]]
    end; cbn [fst] in *.
  all: try (destruct (df_flt (st_self st2)) as [r2|] eqn:Hr2); cbn [fst].
  all: split;
    [ destruct Ha as (?&?&?&?&?); repeat split; simpl in *; congruence
    | destruct He as [[Hs He]|(r0 & d & c & lo & hi & rv & Hr0 & Hflt & Hs & He)];
      [ left; split; simpl in *; congruence
      | right; exists r0, d, c, lo, hi, rv;
        split; [|split; [|split]];
        [ simpl in *; congruence
        | unfold deref in *; simpl in *; congruence
        | simpl in *; congruence
        | destruct He as [He|He]; [left|right]; simpl in *; congruence ] ] ].
Qed.
End Frame.


Lemma query_band_Ok lo hi j rs kept :
  query_band lo hi j rs = Ok kept -> kept = List.filter (band lo hi j) rs.
Proof.
  revert kept. induction rs as [|r rs IH]; simpl; intros kept Hq.
  - injection Hq as <-. reflexivity.
  - unfold band at 1. destruct (cell_at j r) as [v|s]; simpl in Hq; [|discriminate].
    destruct (query_band lo hi j rs) as [k|]; simpl in Hq; [|discriminate].
    injection Hq as <-. rewrite (IH k eq_refl).
    destruct (PrimFloat.leb lo v && PrimFloat.leb v hi); reflexivity.
Qed.




(** ** The working table of a loaded object *)

Section WorkingTable.
Context `{PyRuntime}.








End WorkingTable.



(* ===================================================================== *)
(** * Reset and re-run *)
(* ===================================================================== *)

(** ** Determinism up to the identity of objects *)

Lemma choose_irr_col_view c c' col_name :
  trans c = trans c' -> reg_trans c = reg_trans c' ->
  choose_irr_col c col_name = choose_irr_col c' col_name.
Proof. intros Ht Hr. unfold choose_irr_col. rewrite Ht, Hr. reflexivity. Qed.

Lemma filter_irr_body_view args kwargs st st' :
  live st -> live st' -> view st = view st' ->
  view (fst (filter_irr_body args kwargs st)) = view (fst (filter_irr_body args kwargs st')) /\
  same_outcome (fst (filter_irr_body args kwargs st)) (fst (filter_irr_body args kwargs st'))
               (snd (filter_irr_body args kwargs st)) (snd (filter_irr_body args kwargs st')) /\
  live (fst (filter_irr_body args kwargs st)) /\
  live (fst (filter_irr_body args kwargs st')).
Proof.
  intros Hl Hl' Hv. pose proof Hv as Hv'. unfold view in Hv'. view_eqs Hv'.
  unfold filter_irr_body.
  destruct (bind_params _ _ _) as [vs|e]; [|side_case Hv Hl Hl'].
  destruct vs as [|low [|high [|ref_val [|col_name [|inplace [|]]]]]];
    try (side_case Hv Hl Hl').
  rewrite (choose_irr_col_view _ _ col_name Htrans Hreg).
  destruct (choose_irr_col (st_self st') col_name) as [[c|n]|e];
    [| side_case Hv Hl Hl'
     | side_case Hv Hl Hl'].
  destruct (df_flt (st_self st)) as [r|] eqn:Hr, (df_flt (st_self st')) as [r'|] eqn:Hr';
    try discriminate; [|side_case Hv Hl Hl'].
  simpl in Hwork. injection Hwork as Hwork. rewrite Hwork.
  destruct (flt_irr (deref st' r') c low high ref_val) as [d|e];
    [|side_case Hv Hl Hl'].
  destruct Hl as [Hdf Hflt], Hl' as [Hdf' Hflt'].
  specialize (Hflt r Hr). specialize (Hflt' r' Hr').
  cbn [alloc]. destruct (truthy inplace); cbn [fst snd].
  - split; [|split; [reflexivity|]].
    + unfold view, deref in *. simpl. rewrite !Nat.eqb_refl.
      destruct (Nat.eqb_spec (df (st_self st)) (next_ref (st_store st))); [lia|].
      destruct (Nat.eqb_spec (df (st_self st')) (next_ref (st_store st'))); [lia|].
      f_equal; assumption.
    + split; (split; simpl; [lia | intros x [= <-]; lia]).
  - split; [|split].
    + unfold view, deref in *. simpl. rewrite Hr, Hr'. simpl.
      destruct (Nat.eqb_spec (df (st_self st)) (next_ref (st_store st))); [lia|].
      destruct (Nat.eqb_spec (df (st_self st')) (next_ref (st_store st'))); [lia|].
      destruct (Nat.eqb_spec r (next_ref (st_store st))); [lia|].
      destruct (Nat.eqb_spec r' (next_ref (st_store st'))); [lia|].
      f_equal; try assumption. f_equal. assumption.
    + simpl. unfold deref. simpl. rewrite !Nat.eqb_refl. reflexivity.
    + split; (split; simpl; [lia | intros x Hx; rewrite ?Hr, ?Hr' in Hx;
                                    injection Hx as <-; lia]).
Qed.

Lemma live_append_summary st ix row :
  live st -> live (with_self st (append_summary (st_self st) ix row)).
Proof. intros [H1 H2]. split; [exact H1 | exact H2]. Qed.

Section Rerun.
Context `{PyRuntime}.

Lemma filter_irr_view args kwargs st st' :
  live st -> live st' -> view st = view st' ->
  view (fst (filter_irr args kwargs st)) = view (fst (filter_irr args kwargs st')) /\
  live (fst (filter_irr args kwargs st)) /\
  live (fst (filter_irr args kwargs st')).
Proof.
  intros Hl Hl' Hv. pose proof Hv as Hv'. unfold view in Hv'. view_eqs Hv'.
  unfold filter_irr, update_summary.
  destruct (df_flt (st_self st)) as [r|] eqn:Hr, (df_flt (st_self st')) as [r'|] eqn:Hr';
    try discriminate; [|split; [exact Hv|split; [exact Hl|exact Hl']]].
  simpl in Hwork. injection Hwork as Hwork. rewrite Hwork, Hraw, Hname.
  destruct (shape0 (deref st' r') =? 0)%nat.
  - match goal with
    | |- context [filter_irr_body args kwargs ?s1] =>
        match goal with
        | |- context [view (fst match filter_irr_body args kwargs ?s2 with _ => _ end)
                      = view (fst match filter_irr_body args kwargs ?s3 with _ => _ end)] =>
            pose proof (filter_irr_body_view args kwargs s2 s3) as Hb
        end
    end.
    destruct Hb as (Hbv & Hbo & Hbl & Hbl').
    { apply live_append_summary. exact Hl. }
    { apply live_append_summary. exact Hl'. }
    { unfold view, deref in *. simpl. rewrite Hr, Hr'. simpl. f_equal; congruence. }
    destruct (filter_irr_body args kwargs _) as [s2 [v2|e2]],
             (filter_irr_body args kwargs _) as [s3 [v3|e3]];
      cbn [fst snd] in *; try contradiction; try (destruct v2; contradiction);
      [|split; [exact Hbv|split; [exact Hbl|exact Hbl']]].
    pose proof Hbv as Hbv'. unfold view in Hbv'. view_eqs Hbv'.
    destruct (df_flt (st_self s2)) as [r2|] eqn:Hr2,
             (df_flt (st_self s3)) as [r3|] eqn:Hr3;
      try discriminate; cbn [fst]; [|split; [exact Hbv|split; [exact Hbl|exact Hbl']]].
    simpl in Hwork0. injection Hwork0 as Hwork0.
    split; [|split].
    + unfold view, deref in *. simpl. rewrite Hr2, Hr3. simpl. f_equal; congruence.
    + apply live_append_summary. exact Hbl.
    + apply live_append_summary. exact Hbl'.
  - destruct (filter_irr_body_view args kwargs st st' Hl Hl' Hv)
      as (Hbv & Hbo & Hbl & Hbl').
    destruct (filter_irr_body args kwargs st) as [s2 [v2|e2]],
             (filter_irr_body args kwargs st') as [s3 [v3|e3]];
      cbn [fst snd] in *; try contradiction; try (destruct v2; contradiction);
      [|split; [exact Hbv|split; [exact Hbl|exact Hbl']]].
    pose proof Hbv as Hbv'. unfold view in Hbv'. view_eqs Hbv'.
    destruct (df_flt (st_self s2)) as [r2|] eqn:Hr2,
             (df_flt (st_self s3)) as [r3|] eqn:Hr3;
      try discriminate; cbn [fst]; [|split; [exact Hbv|split; [exact Hbl|exact Hbl']]].
    simpl in Hwork0. injection Hwork0 as Hwork0.
    split; [|split].
    + unfold view, deref in *. simpl. rewrite Hr2, Hr3. simpl. f_equal; congruence.
    + apply live_append_summary. exact Hbl.
    + apply live_append_summary. exact Hbl'.
Qed.

End Rerun.


Section RerunTheorem.
Context `{PyRuntime}.

Lemma run_call_raw c st :
  live st ->
  same_fixed_attributes (st_self st) (st_self (run_call c st)) /\
  deref (run_call c st) (df (st_self (run_call c st))) = deref st (df (st_self st)) /\
  live (run_call c st).
Proof.
  intros Hl. unfold run_call.
  destruct (filter_irr_effect (fst c) (snd c) st) as [Ha He].
  destruct (filter_irr_view (fst c) (snd c) st st Hl Hl eq_refl) as (_ & Hl' & _).
  split; [exact Ha|]. split; [|exact Hl'].
  destruct Ha as (_ & -> & _). destruct Hl as [Hdf _].
  destruct He as [[Hs _]|(r & d & col & lo & hi & rv & _ & _ & Hs & _)];
    unfold deref; rewrite Hs; [reflexivity|]. simpl.
  destruct (Nat.eqb_spec (df (st_self st)) (next_ref (st_store st))); [lia|reflexivity].
Qed.

Lemma run_calls_raw calls st :
  live st ->
  same_fixed_attributes (st_self st) (st_self (run_calls calls st)) /\
  deref (run_calls calls st) (df (st_self (run_calls calls st))) = deref st (df (st_self st)) /\
  live (run_calls calls st).
Proof.
  revert st. induction calls as [|c calls IH]; intros st Hl.
  - split; [repeat split|]. split; [reflexivity|exact Hl].
  - unfold run_calls. simpl. fold (run_calls calls (run_call c st)).
    destruct (run_call_raw c st Hl) as ((a1 & a2 & a3 & a4 & a5) & Hraw & Hl1).
    destruct (IH _ Hl1) as ((b1 & b2 & b3 & b4 & b5) & Hraw' & Hl2).
    split; [repeat split; congruence|]. split; [congruence|exact Hl2].
Qed.

Lemma run_calls_view calls st st' :
  live st -> live st' -> view st = view st' ->
  view (run_calls calls st) = view (run_calls calls st').
Proof.
  revert st st'. induction calls as [|c calls IH]; intros st st' Hl Hl' Hv; [exact Hv|].
  unfold run_calls. simpl.
  destruct (filter_irr_view (fst c) (snd c) st st' Hl Hl' Hv) as (Hv1 & Hl1 & Hl1').
  apply IH; assumption.
Qed.

Lemma reset_flt_view st0 st1 :
  pristine st0 -> live st1 ->
  same_fixed_attributes (st_self st0) (st_self st1) ->
  deref st1 (df (st_self st1)) = deref st0 (df (st_self st0)) ->
  view (reset_flt st1) = view st0 /\ live (reset_flt st1).
Proof.
  intros (r & Hr & Hsame & Hsum & Hix) [Hdf _] (a1 & a2 & a3 & a4 & a5) Hraw.
  unfold reset_flt, view, live, deref in *. simpl. rewrite Nat.eqb_refl.
  destruct (Nat.eqb_spec (df (st_self st1)) (next_ref (st_store st1))); [lia|].
  split.
  - rewrite Hr, Hsum, Hix. simpl. f_equal; congruence.
  - split; [lia|]. intros x [= <-]. lia.
Qed.

(** C6. From a state in which no filter has run, a sequence of filter calls,
    then a reset and the same calls again, end with the same audit trail
    (labels, row counts and argument strings) and the same working table,
    hence the same number of rows, as the first run. *)
Theorem reset_and_rerun calls st0 :
  pristine st0 -> live st0 ->
  let st1 := run_calls calls st0 in
  let st2 := run_calls calls (reset_flt st1) in
  summary (st_self st2) = summary (st_self st1) /\
  summary_ix (st_self st2) = summary_ix (st_self st1) /\
  option_map (fun r => deref st2 r) (df_flt (st_self st2))
  = option_map (fun r => deref st1 r) (df_flt (st_self st1)) /\
  option_map (fun r => shape0 (deref st2 r)) (df_flt (st_self st2))
  = option_map (fun r => shape0 (deref st1 r)) (df_flt (st_self st1)).
Proof.
  intros Hp Hl st1 st2.
  destruct (run_calls_raw calls st0 Hl) as (Ha & Hraw & Hl1). fold st1 in Ha, Hraw, Hl1.
  destruct (reset_flt_view st0 st1 Hp Hl1 Ha Hraw) as [Hv Hlr].
  pose proof (run_calls_view calls _ _ Hlr Hl Hv) as Hv2. fold st1 st2 in Hv2.
  unfold view in Hv2. view_eqs Hv2.
  split; [exact Hsum|]. split; [exact Hix|]. split; [exact Hwork|].
  destruct (df_flt (st_self st2)), (df_flt (st_self st1)); simpl in *;
    congruence.
Qed.

End RerunTheorem.

Lemma reset_and_rerun_witness :
  let st0 := state_of two_rows two_rows in
  let calls := [call_5000_6000; call_800_1200; call_fraction] in
  let st1 := run_calls (H:=example_runtime) calls st0 in
  let st2 := run_calls (H:=example_runtime) calls (reset_flt st1) in
  summary (st_self st2) = summary (st_self st1) /\
  summary_ix (st_self st2) = summary_ix (st_self st1) /\
  option_map (fun r => deref st2 r) (df_flt (st_self st2))
  = option_map (fun r => deref st1 r) (df_flt (st_self st1)) /\
  option_map (fun r => shape0 (deref st2 r)) (df_flt (st_self st2))
  = option_map (fun r => shape0 (deref st1 r)) (df_flt (st_self st1)).
Proof.
  apply (reset_and_rerun (H:=example_runtime)
           [call_5000_6000; call_800_1200; call_fraction] (state_of two_rows two_rows)).
  - exists 1%nat. repeat split; reflexivity.
  - split; [simpl; lia|]. intros r [= <-]. simpl. lia.
Defined.

(* ===================================================================== *)
(** * Copying and the file loaders *)
(* ===================================================================== *)

(** C10. [copy] raises [TypeError] on every object, and leaves it as it was:
    the constructor is called without the [name] it requires. *)
Theorem copy_raises_TypeError (st : State) : copy st = (st, Raise TypeError).
Proof. destruct st. reflexivity. Qed.

(** C9, as the code has it. When the month/day format does not parse the date
    column, the loader falls back to the format-free parse of the column and
    emits no warning. *)
Theorem load_pvsyst_fallback_is_silent strptime_month_day parse_inferred dates :
  to_datetime strptime_month_day dates = Raise ValueError ->
  load_pvsyst_index strptime_month_day parse_inferred dates
  = (to_datetime parse_inferred dates, []).
Proof. intros H. unfold load_pvsyst_index. rewrite H. reflexivity. Qed.

(** A day/month date that the month/day format refuses. *)
Lemma load_pvsyst_fallback_is_silent_witness :
  load_pvsyst_index (fun _ => None) (fun _ => Some 0) ["13/01/90 00:00"%string]
  = (Ok [0], []).
Proof.
  apply (load_pvsyst_fallback_is_silent (fun _ => None) (fun _ => Some 0)
           ["13/01/90 00:00"%string]).
  reflexivity.
Defined.

Lemma find_header_end_none parses labels i :
  Forall (fun x => parses x = false) labels ->
  find_header_end parses i labels = None.
Proof.
  intros H. revert i. induction H as [|x l Hx _ IH]; intros i; simpl; [reflexivity|].
  rewrite Hx. apply IH.
Qed.

(** C8, as the code has it. When no label of the first column parses as a
    date, the search loop never assigns [header_end]: with the default source
    the next line fails on the unassigned variable, and with the AlsoEnergy
    source the loader goes on to the second read with an inferred header. *)
Theorem load_das_no_timestamp parses labels :
  labels <> [] ->
  Forall (fun x => parses x = false) labels ->
  load_das_header parses false (ObjectIndex labels) = Raise (UnboundLocalError "header_end")
  /\ load_das_header parses true (ObjectIndex labels) = Ok (Some HeaderInfer).
Proof.
  intros Hne Hall. destruct labels as [|x l]; [contradiction|].
  unfold load_das_header. rewrite (find_header_end_none parses (x :: l) 0 Hall).
  split; reflexivity.
Qed.

Lemma load_das_no_timestamp_witness :
  load_das_header (fun _ => false) false (ObjectIndex ["foo"; "bar"; "baz"]%string)
  = Raise (UnboundLocalError "header_end")
  /\ load_das_header (fun _ => false) true (ObjectIndex ["foo"; "bar"; "baz"]%string)
     = Ok (Some HeaderInfer).
Proof.
  apply (load_das_no_timestamp (fun _ => false) ["foo"; "bar"; "baz"]%string).
  - discriminate.
  - repeat constructor.
Defined.

(* ===================================================================== *)
(** * More on the classifier *)
(* ===================================================================== *)

(** ** Comparisons with a missing value *)
Lemma SFcompare_nan_r x : SpecFloat.SFcompare x SpecFloat.S754_nan = None.
Proof. destruct x; reflexivity. Qed.

Lemma SFcompare_refl x : x <> SpecFloat.S754_nan -> SpecFloat.SFcompare x x = Some Eq.
Proof.
  destruct x as [s|s| |s m e]; intros Hx; try reflexivity; try contradiction.
  - destruct s; reflexivity.
  - simpl. rewrite Z.compare_refl.
    assert (Hm : PosDef.Pos.compare_cont Eq m m = Eq) by apply Pos.compare_refl.
    rewrite Hm. destruct s; reflexivity.
Qed.

Lemma is_nan_Prim2SF v : PrimFloat.is_nan v = true <-> Prim2SF v = SpecFloat.S754_nan.
Proof.
  unfold PrimFloat.is_nan. rewrite FloatAxioms.eqb_spec. unfold SpecFloat.SFeqb. split.
  - intros Hn. destruct (Prim2SF v) as [s|s| |s m e] eqn:Hv; try reflexivity;
      rewrite SFcompare_refl in Hn by discriminate; discriminate.
  - intros ->. reflexivity.
Qed.

Lemma leb_nan_r x v : PrimFloat.is_nan v = true -> PrimFloat.leb x v = false.
Proof.
  intros Hv. apply is_nan_Prim2SF in Hv. rewrite leb_spec, Hv.
  unfold SpecFloat.SFleb. rewrite SFcompare_nan_r. reflexivity.
Qed.

Lemma leb_nan_l x v : PrimFloat.is_nan v = true -> PrimFloat.leb v x = false.
Proof.
  intros Hv. apply is_nan_Prim2SF in Hv. rewrite leb_spec, Hv. reflexivity.
Qed.

(** ** What the values of a column can change *)

Lemma series_type_match_prints series key b bc w k out :
  series_type_match series key b bc w = Ok (k, out) ->
  (bc && w = false -> out = []) /\ (length out <= 2)%nat.
Proof.
  unfold series_type_match. destruct bc; [|intros [= _ <-]; split; [reflexivity|simpl; lia]].
  destruct b as [[lo hi]|]; [|discriminate].
  destruct (series_min _); simpl; [|discriminate].
  destruct (series_max _); simpl; [|discriminate].
  destruct (py_ge _ _) as [mn|]; simpl; [|discriminate].
  destruct (py_le _ _) as [mx|]; simpl; [|discriminate].
  destruct mn, mx, w; simpl; intros [= _ <-]; split; simpl; (reflexivity || lia || discriminate).
Qed.

Lemma series_type_prints series defs bounds_check warnings k out :
  series_type series defs bounds_check warnings = Ok (k, out) ->
  (bounds_check && warnings = false -> out = []) /\ (length out <= 2)%nat.
Proof.
  induction defs as [|[key [strs b]] defs IH]; simpl.
  - intros [= _ <-]. split; [reflexivity|simpl; lia].
  - assert (Hstrs : forall r, series_type_strs series key b bounds_check warnings strs = Some r ->
                      r = series_type_match series key b bounds_check warnings).
    { induction strs as [|s strs IHs]; simpl; [discriminate|].
      destruct (PyStr.find _ _); [intros r [= <-]; reflexivity|exact IHs]. }
    destruct (series_type_strs series key b bounds_check warnings strs) as [r|]; [|exact IH].
    rewrite (Hstrs r eq_refl). apply series_type_match_prints.
Qed.

(** When the classifier returns, the category is the one the name alone
    determines; at most two lines are printed, and none unless the bounds
    test and the warnings are both on. *)
Theorem series_type_values_only_print series defs bounds_check warnings k out :
  series_type series defs bounds_check warnings = Ok (k, out) ->
  k = classify (s_name series) defs /\
  (bounds_check && warnings = false -> out = []) /\
  (length out <= 2)%nat.
Proof.
  intros Hs. split; [apply (series_type_classify _ _ _ _ _ _ Hs)|].
  apply (series_type_prints _ _ _ _ _ _ Hs).
Qed.

Lemma series_type_values_only_print_witness :
  "irr"%string = classify "POA irradiance" type_defs /\
  (true && true = false ->
   [Below (CNum (-20)%float) "POA irradiance" (CNum (-10)%float) "irr"] = []) /\
  (length [Below (CNum (-20)%float) "POA irradiance" (CNum (-10)%float) "irr"] <= 2)%nat.
Proof.
  apply (series_type_values_only_print
           {| s_name := "POA irradiance";
              s_values := [CNum (-20)%float; CNum 500%float] |} type_defs true true).
  reflexivity.
Defined.

(** With the bounds test off the classifier returns on every column, whatever
    its values, and prints nothing. *)
Theorem series_type_unchecked_returns series defs warnings :
  series_type series defs false warnings = Ok (classify (s_name series) defs, []).
Proof.
  destruct (series_type_unchecked series defs warnings) as (k & out & Hs).
  destruct (series_type_prints _ _ _ _ _ _ Hs) as (Hout & _).
  rewrite Hs, (series_type_classify _ _ _ _ _ _ Hs), (Hout eq_refl). reflexivity.
Qed.

Lemma nanmin_all_nan xs acc :
  Forall (fun x => PrimFloat.is_nan x = true) xs ->
  fold_left (fun acc x =>
               if PrimFloat.is_nan x then acc
               else if PrimFloat.is_nan acc then x
               else if PrimFloat.ltb x acc then x else acc) xs acc = acc.
Proof.
  intros H. revert acc. induction H as [|x xs Hx _ IH]; intros acc; simpl; [reflexivity|].
  rewrite Hx. apply IH.
Qed.

Lemma nanmax_all_nan xs acc :
  Forall (fun x => PrimFloat.is_nan x = true) xs ->
  fold_left (fun acc x =>
               if PrimFloat.is_nan x then acc
               else if PrimFloat.is_nan acc then x
               else if PrimFloat.ltb acc x then x else acc) xs acc = acc.
Proof.
  intros H. revert acc. induction H as [|x xs Hx _ IH]; intros acc; simpl; [reflexivity|].
  rewrite Hx. apply IH.
Qed.

Lemma all_nums_missing vs :
  Forall missing vs ->
  exists xs, all_nums vs = Some xs /\ Forall (fun x => PrimFloat.is_nan x = true) xs.
Proof.
  induction 1 as [|c vs Hc _ (xs & Hxs & Hall)]; simpl; [eauto|].
  destruct c as [x|s]; [|contradiction]. rewrite Hxs. simpl. eauto.
Qed.

(** A column of numbers that holds missing values only, under a name in
    which the first search string found belongs to a category with numeric
    bounds, is given that category; with the warnings on it is reported
    both as below the minimum and as above the maximum, the value shown
    being [NaN] each time. *)
Theorem series_type_all_missing series pre key strs lo hi post :
  Forall missing (s_values series) ->
  Forall (no_match (s_name series)) pre ->
  Exists (fun s => name_matches (s_name series) s = true) strs ->
  series_type series (pre ++ (key, (strs, num_bounds lo hi)) :: post) true true
  = Ok (key, [Below (CNum nan) (s_name series) (CNum lo) key;
              Above (CNum nan) (s_name series) (CNum hi) key]).
Proof.
  intros Hall Hpre Hex. rewrite series_type_first_match by assumption.
  destruct (all_nums_missing _ Hall) as (xs & Hxs & Hnan).
  unfold series_type_match, num_bounds, series_min, series_max. rewrite Hxs.
  unfold nanmin, nanmax. rewrite nanmin_all_nan, nanmax_all_nan by exact Hnan.
  cbn [mbind result_bind py_ge py_le].
  rewrite (leb_nan_r lo nan eq_refl), (leb_nan_l hi nan eq_refl). reflexivity.
Qed.

Lemma series_type_all_missing_witness :
  series_type {| s_name := "POA irradiance"; s_values := [CNum nan; CNum nan] |}
              type_defs true true
  = Ok ("irr"%string,
        [Below (CNum nan) "POA irradiance" (CNum (-10)%float) "irr";
         Above (CNum nan) "POA irradiance" (CNum 1500%float) "irr"]).
Proof.
  apply (series_type_all_missing
           {| s_name := "POA irradiance"; s_values := [CNum nan; CNum nan] |}
           [] "irr" _ (-10)%float 1500%float (tl type_defs)).
  - repeat constructor.
  - constructor.
  - left. reflexivity.
Defined.

(* ===================================================================== *)
(** * More on the irradiance filter and its audit trail *)
(* ===================================================================== *)

(** ** The rows a filter keeps *)

Lemma numeric_at_query lo hi j rs kept :
  query_band lo hi j rs = Ok kept -> numeric_at j rs.
Proof.
  revert kept. induction rs as [|r rs IH]; simpl; intros kept Hq; [constructor|].
  destruct (cell_at j r) as [v|s] eqn:Hc; simpl in Hq; [|discriminate].
  destruct (query_band lo hi j rs) as [k|]; simpl in Hq; [|discriminate].
  constructor; [eauto|]. apply (IH k). reflexivity.
Qed.

Lemma flt_irr_inv d c low high ref_val d' :
  flt_irr d c low high ref_val = Ok d' ->
  exists lo hi j,
    scaled_bounds low high ref_val = Ok (lo, hi) /\
    resolve_column "poa" (rename_poa c (columns d)) = Some j /\
    numeric_at j (rows d) /\
    d' = loc d (map fst (List.filter (band lo hi j) (rows d))).
Proof.
  unfold flt_irr, scaled_bounds. intros Hf.
  destruct (match ref_val with PNone => _ | _ => _ end) as [scaled|];
    simpl in Hf; [|discriminate].
  destruct (resolve_column _ _) as [j|]; [|discriminate].
  destruct (as_float (fst scaled)) as [lo|] eqn:Hlo; simpl in Hf; [|discriminate].
  destruct (as_float (snd scaled)) as [hi|] eqn:Hhi; simpl in Hf; [|discriminate].
  destruct (query_band lo hi j (rows d)) as [kept|] eqn:Hq; simpl in Hf; [|discriminate].
  injection Hf as <-. exists lo, hi, j. cbn [mbind result_bind].
  rewrite Hlo, Hhi. cbn [mbind result_bind].
  rewrite (query_band_Ok _ _ _ _ _ Hq).
  repeat split; try reflexivity. apply (numeric_at_query _ _ _ _ _ Hq).
Qed.

Lemma flt_irr_intro d c low high ref_val lo hi j :
  scaled_bounds low high ref_val = Ok (lo, hi) ->
  resolve_column "poa" (rename_poa c (columns d)) = Some j ->
  numeric_at j (rows d) ->
  flt_irr d c low high ref_val
  = Ok (loc d (map fst (List.filter (band lo hi j) (rows d)))).
Proof.
  unfold flt_irr, scaled_bounds. intros Hb Hj Hnum.
  destruct (match ref_val with PNone => _ | _ => _ end) as [scaled|];
    simpl in *; [|discriminate].
  rewrite Hj. cbn [mbind result_bind] in *.
  destruct (as_float (fst scaled)) as [lo'|]; cbn [mbind result_bind] in *; [|discriminate].
  destruct (as_float (snd scaled)) as [hi'|]; cbn [mbind result_bind] in *; [|discriminate].
  injection Hb as -> ->.
  rewrite (query_band_numeric _ _ _ _ Hnum). reflexivity.
Qed.

Lemma band_not_missing lo hi j r :
  band lo hi j r = true ->
  exists v, cell_at j r = CNum v /\ PrimFloat.is_nan v = false.
Proof.
  unfold band. destruct (cell_at j r) as [v|s]; [|discriminate].
  intros Hb. apply andb_true_iff in Hb as [Hlo _].
  exists v. split; [reflexivity|].
  destruct (PrimFloat.is_nan v) eqn:Hn; [|reflexivity].
  rewrite (leb_nan_r lo v Hn) in Hlo. discriminate.
Qed.

(** Whatever the bounds, a row whose irradiance is missing is not kept: on a
    table with distinct labels, every row that [flt_irr] returns is a row of
    the table that holds a number, not [NaN], in the irradiance column. *)
Theorem flt_irr_drops_missing d irr_col j low high ref_val d' :
  irradiance_column d irr_col j ->
  List.NoDup (index d) ->
  flt_irr d (Some irr_col) low high ref_val = Ok d' ->
  Forall (fun r => In r (rows d) /\
                   exists v, cell_at j r = CNum v /\ PrimFloat.is_nan v = false)
         (rows d').
Proof.
  intros Hcol Hnd Hf.
  apply flt_irr_inv in Hf as (lo & hi & j' & _ & Hj & _ & ->).
  rewrite (resolve_renamed d irr_col j Hcol) in Hj. injection Hj as <-.
  unfold loc. cbn [rows]. rewrite loc_rows_filter by exact Hnd.
  apply List.Forall_forall. intros r Hr. apply filter_In in Hr as [Hr Hb].
  split; [exact Hr|]. apply (band_not_missing _ _ _ _ Hb).
Qed.

Lemma flt_irr_drops_missing_witness :
  Forall (fun r => In r (rows three_rows) /\
                   exists v, cell_at 0 r = CNum v /\ PrimFloat.is_nan v = false)
         [(0, [CNum 900%float]); (2, [CNum 100%float])].
Proof.
  apply (flt_irr_drops_missing three_rows "poa" 0%nat (PInt 0) (PInt 2000) PNone
           {| columns := ["poa"%string];
              rows := [(0, [CNum 900%float]); (2, [CNum 100%float])] |}).
  - split; [reflexivity|].
    intros [|[|j']] c Hc _; [reflexivity | discriminate Hc | discriminate Hc].
  - repeat constructor; simpl; intuition discriminate.
  - vm_compute. reflexivity.
Defined.

Lemma NoDup_filter_index (P : Z * list cell -> bool) rs :
  List.NoDup (map fst rs) -> List.NoDup (map fst (List.filter P rs)).
Proof.
  induction rs as [|r rs IH]; simpl; intros Hnd; [constructor|].
  inversion Hnd as [|x l Hn Hnd']; subst.
  destruct (P r); simpl; [constructor|]; auto.
  intros Hin. apply Hn. apply in_map_iff in Hin as (r' & Hr' & Hin).
  apply filter_In in Hin as [Hin _]. apply in_map_iff. eauto.
Qed.

Lemma numeric_at_filter (P : Z * list cell -> bool) j rs :
  numeric_at j rs -> numeric_at j (List.filter P rs).
Proof.
  unfold numeric_at. rewrite !List.Forall_forall. intros H r Hr.
  apply filter_In in Hr as [Hr _]. auto.
Qed.

Lemma filter_comm {A} (P Q : A -> bool) l :
  List.filter P (List.filter Q l) = List.filter Q (List.filter P l).
Proof.
  induction l as [|x l IH]; simpl; [reflexivity|].
  destruct (P x) eqn:HP, (Q x) eqn:HQ; simpl; rewrite ?HP, ?HQ, IH; reflexivity.
Qed.

Lemma flt_irr_rows d c low high ref_val d' :
  List.NoDup (index d) ->
  flt_irr d c low high ref_val = Ok d' ->
  exists lo hi j,
    scaled_bounds low high ref_val = Ok (lo, hi) /\
    resolve_column "poa" (rename_poa c (columns d)) = Some j /\
    numeric_at j (rows d) /\
    d' = {| columns := columns d; rows := List.filter (band lo hi j) (rows d) |}.
Proof.
  intros Hnd Hf. apply flt_irr_inv in Hf as (lo & hi & j & Hb & Hj & Hnum & ->).
  exists lo, hi, j. repeat split; try assumption.
  unfold loc. f_equal. apply loc_rows_filter. exact Hnd.
Qed.

(** Two irradiance filters commute: on a table with distinct labels, a
    filter followed by a second one returns what the second followed by the
    first returns. *)
Theorem flt_irr_commutes d c lowA highA refA lowB highB refB dA dAB :
  List.NoDup (index d) ->
  flt_irr d c lowA highA refA = Ok dA ->
  flt_irr dA c lowB highB refB = Ok dAB ->
  exists dB, flt_irr d c lowB highB refB = Ok dB /\
             flt_irr dB c lowA highA refA = Ok dAB.
Proof.
  intros Hnd HA HAB.
  apply (flt_irr_rows _ _ _ _ _ _ Hnd) in HA as (loA & hiA & j & HbA & Hj & Hnum & ->).
  apply flt_irr_rows in HAB as (loB & hiB & j' & HbB & Hj' & _ & ->);
    [|apply NoDup_filter_index; exact Hnd].
  cbn [columns rows] in *. rewrite Hj in Hj'. injection Hj' as <-.
  eexists. split.
  - rewrite (flt_irr_intro d c lowB highB refB loB hiB j HbB Hj Hnum).
    unfold loc. rewrite loc_rows_filter by exact Hnd. reflexivity.
  - rewrite (flt_irr_intro _ c lowA highA refA loA hiA j HbA); cbn [columns rows].
    + unfold loc. cbn [columns rows].
      rewrite loc_rows_filter by (apply NoDup_filter_index; exact Hnd).
      rewrite filter_comm. reflexivity.
    + exact Hj.
    + apply numeric_at_filter. exact Hnum.
Qed.

Lemma flt_irr_commutes_witness :
  exists dB,
    flt_irr three_rows (Some "poa"%string) (PInt 0) (PInt 2000) PNone = Ok dB /\
    flt_irr dB (Some "poa"%string) (PInt 800) (PInt 1200) PNone
    = Ok {| columns := ["poa"%string]; rows := [(0, [CNum 900%float])] |}.
Proof.
  apply (flt_irr_commutes three_rows (Some "poa"%string)
           (PInt 800) (PInt 1200) PNone (PInt 0) (PInt 2000) PNone
           {| columns := ["poa"%string]; rows := [(0, [CNum 900%float])] |}).
  - repeat constructor; simpl; intuition discriminate.
  - vm_compute. reflexivity.
  - vm_compute. reflexivity.
Defined.

Lemma filter_idem {A} (P : A -> bool) l :
  List.filter P (List.filter P l) = List.filter P l.
Proof.
  induction l as [|x l IH]; simpl; [reflexivity|].
  destruct (P x) eqn:HP; simpl; rewrite ?HP, IH; reflexivity.
Qed.

(** Filtering twice with the same bounds changes nothing the second time. *)
Theorem flt_irr_idempotent d c low high ref_val d' :
  List.NoDup (index d) ->
  flt_irr d c low high ref_val = Ok d' ->
  flt_irr d' c low high ref_val = Ok d'.
Proof.
  intros Hnd Hf.
  apply (flt_irr_rows _ _ _ _ _ _ Hnd) in Hf as (lo & hi & j & Hb & Hj & Hnum & ->).
  rewrite (flt_irr_intro _ c low high ref_val lo hi j Hb); cbn [columns rows].
  - unfold loc. cbn [columns rows].
    rewrite loc_rows_filter by (apply NoDup_filter_index; exact Hnd).
    rewrite filter_idem. reflexivity.
  - exact Hj.
  - apply numeric_at_filter. exact Hnum.
Qed.

Lemma flt_irr_idempotent_witness :
  flt_irr {| columns := ["poa"%string]; rows := [(0, [CNum 900%float])] |}
          (Some "poa"%string) (PInt 800) (PInt 1200) PNone
  = Ok {| columns := ["poa"%string]; rows := [(0, [CNum 900%float])] |}.
Proof.
  apply (flt_irr_idempotent three_rows).
  - repeat constructor; simpl; intuition discriminate.
  - vm_compute. reflexivity.
Defined.





(** ** What the audit trail accounts for *)

Lemma filter_irr_body_raise args kwargs st st2 e :
  filter_irr_body args kwargs st = (st2, Raise e) -> st2 = st.
Proof.
  unfold filter_irr_body.
  destruct (bind_params _ _ _) as [vs|]; [|intros [= <- _]; reflexivity].
  destruct vs as [|low [|high [|ref_val [|col_name [|inplace [|]]]]]];
    try (intros [= <- _]; reflexivity).
  destruct (choose_irr_col _ _) as [[c|n]|]; try (intros [= <- _]; reflexivity);
    try discriminate.
  destruct (df_flt _); [|intros [= <- _]; reflexivity].
  destruct (flt_irr _ _ _ _ _); [|intros [= <- _]; reflexivity].
  cbn [alloc]. destruct (truthy inplace); discriminate.
Qed.

Lemma filter_irr_body_ok_table args kwargs st st2 v r :
  filter_irr_body args kwargs st = (st2, Ok v) ->
  df_flt (st_self st) = Some r ->
  exists r2, df_flt (st_self st2) = Some r2.
Proof.
  unfold filter_irr_body. intros Hb Hr.
  destruct (bind_params _ _ _) as [vs|]; [|discriminate].
  destruct vs as [|low [|high [|ref_val [|col_name [|inplace [|]]]]]]; try discriminate.
  destruct (choose_irr_col _ _) as [[c|n]|]; try discriminate.
  - rewrite Hr in Hb. destruct (flt_irr _ _ _ _ _); [|discriminate].
    cbn [alloc] in Hb. destruct (truthy inplace); injection Hb as <- _; simpl; eauto.
  - injection Hb as <- _. simpl. eauto.
Qed.

Lemma total_removed_app l1 l2 :
  total_removed (l1 ++ l2) = total_removed l1 + total_removed l2.
Proof. induction l1 as [|e l1 IH]; simpl; [reflexivity|]. rewrite IH. lia. Qed.

Section Accounting.
Context `{PyRuntime}.

Lemma filter_irr_accounts args kwargs st :
  working_rows st <> 0%nat ->
  let st' := fst (filter_irr args kwargs st) in
  total_removed (summary (st_self st'))
  = total_removed (summary (st_self st))
    + Z.of_nat (working_rows st) - Z.of_nat (working_rows st').
Proof.
  intros Hne st'. subst st'.
  destruct (filter_irr args kwargs st) as [st' [ret|e]] eqn:Hrun; cbn [fst].
  - unfold filter_irr in Hrun.
    apply update_summary_inv in Hrun as (r & st2 & r2 & Hr & Hf & Hr2 & ->).
    cbv zeta in Hf. unfold working_rows in *. rewrite Hr in *.
    destruct (Nat.eqb_spec (shape0 (deref st r)) 0) as [|_]; [contradiction|].
    pose proof (filter_irr_body_keeps_trail args kwargs st) as [Hs _].
    rewrite Hf in Hs. simpl in Hs.
    cbn [with_self st_self append_summary set_summary summary df_flt].
    rewrite Hr2, Hs, total_removed_app. unfold deref. simpl. lia.
  - unfold filter_irr, update_summary in Hrun. unfold working_rows in *.
    destruct (df_flt (st_self st)) as [r|] eqn:Hr; [|contradiction].
    destruct (Nat.eqb_spec (shape0 (deref st r)) 0) as [|_]; [contradiction|].
    cbv beta iota zeta in Hrun.
    destruct (filter_irr_body args kwargs st) as [st2 [v|e2]] eqn:Hb.
    + destruct (filter_irr_body_ok_table _ _ _ _ _ _ Hb Hr) as [r2 Hr2].
      rewrite Hr2 in Hrun. discriminate.
    + injection Hrun as <- <-. apply filter_irr_body_raise in Hb. subst st2.
      rewrite Hr. lia.
Qed.

(** As long as no call finds the working table without rows, the counts of
    rows removed that a sequence of filter calls adds to the audit trail sum
    to the rows the working table has lost. *)
Theorem audit_trail_accounts_for_rows calls st :
  never_empty calls st ->
  total_removed (summary (st_self (run_calls calls st)))
  = total_removed (summary (st_self st))
    + Z.of_nat (working_rows st) - Z.of_nat (working_rows (run_calls calls st)).
Proof.
  revert st. induction calls as [|c calls IH]; intros st Hne.
  - unfold run_calls. simpl. lia.
  - destruct Hne as [Hne Hrest]. unfold run_calls. simpl.
    fold (run_call c st). fold (run_calls calls (run_call c st)).
    rewrite (IH _ Hrest). unfold run_call at 1 3.
    rewrite (filter_irr_accounts (fst c) (snd c) st Hne). fold (run_call c st). lia.
Qed.

End Accounting.

Lemma audit_trail_accounts_for_rows_witness :
  let st := state_of two_rows two_rows in
  let calls := [call_not_inplace; call_800_1200; call_fraction] in
  total_removed (summary (st_self (run_calls (H:=example_runtime) calls st)))
  = total_removed (summary (st_self st))
    + Z.of_nat (working_rows st)
    - Z.of_nat (working_rows (run_calls (H:=example_runtime) calls st)).
Proof.
  apply (audit_trail_accounts_for_rows (H:=example_runtime)
           [call_not_inplace; call_800_1200; call_fraction] (state_of two_rows two_rows)).
  repeat split; vm_compute; discriminate.
Defined.


(** ** Calls that filter nothing *)


Section Idle.
Context `{PyRuntime}.



End Idle.



(* ===================================================================== *)
(** * The mapping of a loaded object *)
(* ===================================================================== *)

(** ** The keys of the mapping *)

Lemma set_trans_keys_eq d trans_report t :
  set_trans d trans_report = Ok t ->
  t_trans_keys t
  = py_sorted PyStr.leb
      (List.filter (fun k => negb (String.eqb k "index--")) (group_keys (columns d))).
Proof.
  unfold set_trans. intros Hset.
  destruct (apply_series_type d type_defs true trans_report) as [r1|] eqn:H1;
    simpl in Hset; [|discriminate].
  destruct (apply_series_type d sub_type_defs false false) as [r2|] eqn:H2;
    simpl in Hset; [|discriminate].
  destruct (apply_series_type d irr_sensors_defs false false) as [r3|] eqn:H3;
    simpl in Hset; [|discriminate].
  apply apply_series_type_keys in H1, H2, H3.
  rewrite (zip3_keys _ _ _ _ H1 H2 H3) in Hset.
  rewrite combine_map_self in Hset.
  fold (sorted_names (columns d)) in Hset. fold (group_keys (columns d)) in Hset.
  destruct (fill_trans _ _ _ _) as [m|]; simpl in Hset; [|discriminate].
  injection Hset as <-. reflexivity.
Qed.

Lemma set_trans_nonempty d trans_report t :
  set_trans d trans_report = Ok t -> columns d <> [] /\ rows d <> [].
Proof.
  unfold set_trans. intros Hset.
  destruct (apply_series_type d type_defs true trans_report) as [r1|] eqn:H1;
    [|discriminate].
  unfold apply_series_type, shape0 in H1.
  destruct (columns d) as [|c cols]; [discriminate|].
  destruct (rows d) as [|r rs]; [discriminate|]. split; discriminate.
Qed.

Lemma pairs_sorted_group k (P : list (string * string)) :
  StronglySorted (fun a b => pair_leb a b = true) P ->
  leb_sorted (group k P).
Proof.
  unfold group, leb_sorted. induction 1 as [|p P Hs IH Hp]; simpl; [constructor|].
  destruct (String.eqb_spec k (fst p)) as [Hk|_]; [|exact IH].
  simpl. constructor; [exact IH|].
  apply List.Forall_forall. intros c Hc. apply in_map_iff in Hc as (q & <- & Hq).
  apply filter_In in Hq as [Hq Hkq]. apply String.eqb_eq in Hkq.
  rewrite List.Forall_forall in Hp. specialize (Hp q Hq).
  unfold pair_leb in Hp. rewrite <- Hk, <- Hkq, String.eqb_refl in Hp. exact Hp.
Qed.

Lemma sorted_names_sorted cols :
  StronglySorted (fun a b => pair_leb a b = true) (sorted_names cols).
Proof.
  unfold sorted_names. apply py_sorted_sorted; [apply pair_leb_total|apply pair_leb_trans].
Qed.

Lemma set_trans_keys_In d trans_report t :
  set_trans d trans_report = Ok t ->
  forall k, In k (t_trans_keys t) <->
            In k (group_keys (columns d)) /\ k <> "index--"%string.
Proof.
  intros Hset k. rewrite (set_trans_keys_eq d trans_report t Hset). split.
  - intros Hk. eapply Permutation_in in Hk; [|apply py_sorted_perm].
    apply filter_In in Hk as [Hk Hne]. split; [exact Hk|].
    intros ->. discriminate.
  - intros [Hk Hne]. eapply Permutation_in; [symmetry; apply py_sorted_perm|].
    apply filter_In. split; [exact Hk|].
    destruct (String.eqb_spec k "index--"); [contradiction|reflexivity].
Qed.

Lemma set_trans_key_of d trans_report t k :
  set_trans d trans_report = Ok t ->
  is_Some (t_trans t !! k) <-> In k (group_keys (columns d)).
Proof.
  intros Hset. destruct (set_trans_inv d trans_report t Hset k) as [Hin Hout]. split.
  - intros [l Hl].
    destruct (in_dec string_dec k (group_keys (columns d))) as [Hd|Hd]; [exact Hd|].
    rewrite (Hout Hd) in Hl. discriminate.
  - intros Hk. rewrite (Hin Hk). eauto.
Qed.

(** The list [trans_keys] that [__set_trans] builds holds the keys of the
    mapping other than [index--], each once, in ascending order; and the
    list of every key is not empty and in ascending order. *)
Theorem set_trans_keys d trans_report t :
  set_trans d trans_report = Ok t ->
  (forall k, In k (t_trans_keys t) <-> is_Some (t_trans t !! k) /\ k <> "index--"%string) /\
  leb_sorted (t_trans_keys t) /\
  List.NoDup (t_trans_keys t) /\
  (forall k l, t_trans t !! k = Some l -> l <> [] /\ leb_sorted l).
Proof.
  intros Hset. pose proof (set_trans_inv d trans_report t Hset) as Hlook.
  assert (Hsome : forall k, is_Some (t_trans t !! k) <-> In k (group_keys (columns d)))
    by (intros k; apply (set_trans_key_of d trans_report t k Hset)).
  split; [|split; [|split]].
  - intros k. rewrite Hsome. apply (set_trans_keys_In d trans_report t Hset).
  - rewrite (set_trans_keys_eq d trans_report t Hset).
    apply py_sorted_sorted; [apply String.leb_total|apply leb_trans].
  - rewrite (set_trans_keys_eq d trans_report t Hset).
    eapply Permutation_NoDup; [symmetry; apply py_sorted_perm|].
    apply List.NoDup_filter. apply group_keys_NoDup.
  - intros k l Hl. assert (Hk : In k (group_keys (columns d))) by (apply Hsome; eauto).
    destruct (Hlook k) as [Hin _]. rewrite (Hin Hk) in Hl. injection Hl as <-. split.
    + apply group_keys_In in Hk as (c & Hc & ->).
      intros Hnil. assert (Hcin : In c (group (key_of_name c) (sorted_names (columns d))))
        by (apply group_In; auto).
      rewrite Hnil in Hcin. destruct Hcin.
    + apply pairs_sorted_group. apply sorted_names_sorted.
Qed.

Lemma set_trans_keys_witness :
  exists t, set_trans three_columns true = Ok t /\
  t_trans_keys t = ["--"; "irr-poa-"; "temp-amb-"]%string /\
  ((forall k, In k (t_trans_keys t) <-> is_Some (t_trans t !! k) /\ k <> "index--"%string) /\
   leb_sorted (t_trans_keys t) /\
   List.NoDup (t_trans_keys t) /\
   (forall k l, t_trans t !! k = Some l -> l <> [] /\ leb_sorted l)).
Proof.
  eexists. split; [vm_compute; reflexivity|]. split; [vm_compute; reflexivity|].
  apply (set_trans_keys three_columns true). vm_compute. reflexivity.
Defined.

(** ** The loaded object *)

Section Loaded.
Context `{PyRuntime}.

Lemma load_data_inv all_sensors trans_report st0 st out :
  load_data all_sensors true trans_report st0 = (st, Ok out) ->
  exists t r,
    set_trans (add_index_column all_sensors) trans_report = Ok t /\
    trans (st_self st) = t_trans t /\
    trans_keys (st_self st) = t_trans_keys t /\
    deref st (df (st_self st)) = add_index_column all_sensors /\
    df_flt (st_self st) = Some r /\
    deref st r = add_index_column all_sensors /\
    reg_trans (st_self st) = reg_trans (st_self st0).
Proof.
  unfold load_data. cbn [alloc]. unfold deref at 1.
  cbn [st_store with_self with_store objects]. rewrite Nat.eqb_refl.
  destruct (set_trans (add_index_column all_sensors) trans_report) as [t|] eqn:Hset;
    [|discriminate].
  intros [= <- _]. exists t, (S (next_ref (st_store st0))).
  unfold deref. simpl. rewrite !Nat.eqb_refl.
  destruct (Nat.eqb_spec (next_ref (st_store st0)) (S (next_ref (st_store st0))));
    [lia|].
  repeat split; reflexivity.
Qed.

Lemma index_in_columns all_sensors :
  In "index"%string (columns (add_index_column all_sensors)).
Proof.
  unfold add_index_column. cbn [columns].
  destruct (existsb (String.eqb "index") (columns all_sensors)) eqn:E.
  - apply existsb_exists in E as (c & Hc & Heq). apply String.eqb_eq in Heq.
    subst c. exact Hc.
  - apply in_or_app. right. left. reflexivity.
Qed.

Lemma index_key_in_group_keys all_sensors :
  In "index--"%string (group_keys (columns (add_index_column all_sensors))).
Proof.
  apply group_keys_In. exists "index"%string. split; [apply index_in_columns|].
  vm_compute. reflexivity.
Qed.

(** After a load that builds the mapping, the column [index] that the load
    adds is listed under the key [index--] of the mapping, and that key is
    left out of [trans_keys]. *)
Theorem load_data_index_group all_sensors trans_report st0 st out :
  load_data all_sensors true trans_report st0 = (st, Ok out) ->
  (exists l, trans (st_self st) !! "index--"%string = Some l /\ In "index"%string l) /\
  ~ In "index--"%string (trans_keys (st_self st)).
Proof.
  intros Hload.
  apply load_data_inv in Hload as (t & r & Hset & -> & -> & _).
  pose proof (set_trans_inv _ _ _ Hset) as Hlook.
  split.
  - destruct (Hlook "index--"%string) as [Hin _].
    rewrite (Hin (index_key_in_group_keys all_sensors)).
    eexists. split; [reflexivity|]. apply group_In. split; [apply index_in_columns|].
    vm_compute. reflexivity.
  - intros Hin. apply (set_trans_keys_In _ _ _ Hset) in Hin as [_ Hne].
    apply Hne. reflexivity.
Qed.

(** [empty] answers [False] after any load that built the mapping. *)
Theorem empty_after_load all_sensors trans_report st0 st out :
  load_data all_sensors true trans_report st0 = (st, Ok out) ->
  empty st = false.
Proof.
  intros Hload.
  apply load_data_inv in Hload as (t & r & Hset & _ & _ & Hraw & _).
  apply set_trans_nonempty in Hset as [Hc Hr].
  unfold empty. cbv zeta. rewrite Hraw. unfold shape0.
  destruct (columns (add_index_column all_sensors)); [contradiction|].
  destruct (rows (add_index_column all_sensors)); [contradiction|]. reflexivity.
Qed.

(** A load of a table without rows that is asked to build the mapping
    raises [AttributeError] after it has replaced the raw table: the object
    is left with the new raw table and with the working table, the mapping
    and the audit trail it had. *)
Theorem load_data_no_rows all_sensors trans_report st0 :
  rows all_sensors = [] ->
  exists st,
    load_data all_sensors true trans_report st0 = (st, Raise AttributeError) /\
    deref st (df (st_self st)) = add_index_column all_sensors /\
    df_flt (st_self st) = df_flt (st_self st0) /\
    trans (st_self st) = trans (st_self st0) /\
    trans_keys (st_self st) = trans_keys (st_self st0) /\
    summary (st_self st) = summary (st_self st0).
Proof.
  intros Hrows. unfold load_data. cbn [alloc]. unfold deref at 1.
  cbn [st_store with_self with_store objects]. rewrite Nat.eqb_refl.
  assert (Hset : set_trans (add_index_column all_sensors) trans_report
                 = Raise AttributeError).
  { unfold set_trans, apply_series_type, shape0, add_index_column. cbn [rows columns].
    rewrite Hrows. simpl. rewrite orb_true_r. reflexivity. }
  rewrite Hset. eexists. split; [reflexivity|].
  unfold deref. simpl. rewrite Nat.eqb_refl. repeat split; reflexivity.
Qed.

End Loaded.

Lemma load_data_index_group_witness :
  (exists l, trans (st_self loaded) !! "index--"%string = Some l /\ In "index"%string l) /\
  ~ In "index--"%string (trans_keys (st_self loaded)).
Proof.
  apply (load_data_index_group (H:=example_runtime) three_columns true new_object loaded []).
  vm_compute. reflexivity.
Defined.

Lemma empty_after_load_witness : empty loaded = false.
Proof.
  apply (empty_after_load (H:=example_runtime) three_columns true new_object loaded []).
  vm_compute. reflexivity.
Defined.

Lemma load_data_no_rows_witness :
  exists st,
    load_data (H:=example_runtime) empty_frame true true new_object
    = (st, Raise AttributeError) /\
    deref st (df (st_self st)) = add_index_column (H:=example_runtime) empty_frame /\
    df_flt (st_self st) = df_flt (st_self new_object) /\
    trans (st_self st) = trans (st_self new_object) /\
    trans_keys (st_self st) = trans_keys (st_self new_object) /\
    summary (st_self st) = summary (st_self new_object).
Proof.
  apply (load_data_no_rows (H:=example_runtime) empty_frame true new_object).
  reflexivity.
Defined.

(** A new object is empty. *)
Lemma empty_new_object nm s :
  match CapData_init [nm] [] s with
  | (s', Ok c) => empty {| st_self := c; st_store := s'; st_warnings := [] |} = true
  | (_, Raise _) => False
  end.
Proof. unfold CapData_init, empty, deref. simpl. rewrite Nat.eqb_refl. reflexivity. Qed.

(* ===================================================================== *)
(** * Dropping columns *)
(* ===================================================================== *)

(** ** Columns by position *)

Lemma map_nth_seq (l : list string) :
  map (fun j => nth j l EmptyString) (seq 0 (length l)) = l.
Proof.
  assert (Hgen : forall pre, map (fun j => nth j (pre ++ l) EmptyString)
                                 (seq (length pre) (length l)) = l).
  { induction l as [|x l IH]; intros pre; simpl; [reflexivity|].
    rewrite app_nth2, Nat.sub_diag by lia. simpl. f_equal.
    specialize (IH (pre ++ [x])). rewrite length_app, Nat.add_1_r, <- app_assoc in IH.
    exact IH. }
  apply (Hgen []).
Qed.

Lemma filter_map_swap {A B} (f : A -> B) (P : B -> bool) l :
  List.filter P (map f l) = map f (List.filter (fun x => P (f x)) l).
Proof.
  induction l as [|x l IH]; simpl; [reflexivity|].
  destruct (P (f x)); simpl; rewrite IH; reflexivity.
Qed.

Lemma filter_positions (P : string -> bool) (l : list string) :
  map (fun j => nth j l EmptyString)
      (List.filter (fun j => P (nth j l EmptyString)) (seq 0 (length l)))
  = List.filter P l.
Proof.
  rewrite <- (filter_map_swap (fun j => nth j l EmptyString) P).
  rewrite map_nth_seq. reflexivity.
Qed.

Lemma forallb_mem cols labels :
  (forall c, In c labels -> In c cols) ->
  forallb (fun k => mem k cols) labels = true.
Proof.
  intros Hin. apply forallb_forall. intros c Hc. apply mem_In. auto.
Qed.

Lemma drop_columns_ok d labels :
  (forall c, In c labels -> In c (columns d)) ->
  exists d', drop_columns d labels = Ok d' /\
             columns d' = List.filter (fun c => negb (mem c labels)) (columns d) /\
             index d' = index d.
Proof.
  intros Hin. unfold drop_columns. rewrite (forallb_mem _ _ Hin).
  eexists. split; [reflexivity|]. split.
  - unfold take_columns. cbn [columns].
    apply (filter_positions (fun c => negb (mem c labels))).
  - unfold index, take_columns. cbn [rows]. rewrite map_map. reflexivity.
Qed.

(** ** Removal from the list of a key *)

Lemma list_remove_absent col l : ~ In col l -> list_remove col l = None.
Proof.
  induction l as [|x l IH]; simpl; intros Hn; [reflexivity|].
  destruct (String.eqb_spec x col) as [->|_]; [exfalso; apply Hn; left; reflexivity|].
  rewrite IH; [reflexivity|]. intros Hin. apply Hn. right. exact Hin.
Qed.

Lemma list_remove_NoDup col l l' :
  List.NoDup l -> list_remove col l = Some l' ->
  List.NoDup l' /\ forall c, In c l' <-> In c l /\ c <> col.
Proof.
  revert l'. induction l as [|x l IH]; simpl; intros l' Hnd Hr; [discriminate|].
  inversion Hnd as [|? ? Hx Hnd']; subst.
  destruct (String.eqb_spec x col) as [->|Hne].
  - injection Hr as <-. split; [exact Hnd'|]. intros c. split.
    + intros Hc. split; [right; exact Hc|]. intros ->. contradiction.
    + intros [[Heq|Hc] Hcne]; [congruence|exact Hc].
  - destruct (list_remove col l) as [l0|] eqn:Hl; [|discriminate].
    simpl in Hr. injection Hr as <-.
    destruct (IH l0 Hnd' eq_refl) as [Hnd0 Hin0]. split.
    + constructor; [|exact Hnd0]. intros Hin. apply Hin0 in Hin as [Hin _]. contradiction.
    + intros c. simpl. rewrite Hin0. split.
      * intros [<-|[Hc Hcne]]; [split; [left; reflexivity|exact Hne]|].
        split; [right; exact Hc|exact Hcne].
      * intros [[<-|Hc] Hcne]; [left; reflexivity|right; split; assumption].
Qed.

Lemma drop_from_group_NoDup cols l :
  List.NoDup l ->
  List.NoDup (drop_from_group cols l) /\
  forall c, In c (drop_from_group cols l) <-> In c l /\ ~ In c cols.
Proof.
  unfold drop_from_group. revert l. induction cols as [|col cols IH]; intros l Hnd; simpl.
  - split; [exact Hnd|]. intros c. tauto.
  - destruct (list_remove col l) as [l'|] eqn:Hr.
    + destruct (list_remove_NoDup col l l' Hnd Hr) as [Hnd' Hin'].
      destruct (IH l' Hnd') as [Hnd2 Hin2]. split; [exact Hnd2|].
      intros c. rewrite Hin2, Hin'. split.
      * intros [[Hc Hne] Hn]. split; [exact Hc|]. intros [Heq|Hin]; [congruence|contradiction].
      * intros [Hc Hn]. split; [split; [exact Hc|]|]; intros Hx; apply Hn; [left|right]; auto.
    + destruct (IH l Hnd) as [Hnd2 Hin2]. split; [exact Hnd2|].
      intros c. rewrite Hin2. split.
      * intros [Hc Hn]. split; [exact Hc|]. intros [Heq|Hin]; [|contradiction].
        subst c. destruct (in_dec string_dec col l) as [Hd|Hd]; [|contradiction].
        revert Hr. clear -Hd. induction l as [|x l IH]; [destruct Hd|]. simpl.
        destruct (String.eqb_spec x col); [discriminate|].
        destruct Hd as [|Hd]; [contradiction|].
        destruct (list_remove col l); [discriminate|]. intros _. apply IH; auto.
      * intros [Hc Hn]. split; [exact Hc|]. intros Hx. apply Hn. right. exact Hx.
Qed.

(** ** The mapping as a partition *)

(** The mapping that [__set_trans] builds from a table with distinct columns
    partitions them. *)
Lemma set_trans_partitions d trans_report t :
  set_trans d trans_report = Ok t -> List.NoDup (columns d) ->
  partitions (t_trans t) (columns d).
Proof.
  intros Hset Hnd. pose proof (set_trans_inv d trans_report t Hset) as Hlook.
  assert (Hsome : forall k l, t_trans t !! k = Some l ->
                    In k (group_keys (columns d)) /\ l = group k (sorted_names (columns d))).
  { intros k l Hk. destruct (Hlook k) as [Hin Hout].
    destruct (in_dec string_dec k (group_keys (columns d))) as [Hd|Hd].
    - split; [exact Hd|]. rewrite (Hin Hd) in Hk. congruence.
    - rewrite (Hout Hd) in Hk. discriminate. }
  split; [|split].
  - intros k l Hl. destruct (Hsome k l Hl) as [_ ->]. split.
    + unfold group.
      assert (Hp : List.NoDup (map snd (sorted_names (columns d)))).
      { eapply Permutation_NoDup; [apply Permutation_map; symmetry; apply py_sorted_perm|].
        rewrite map_map. simpl. rewrite map_id. exact Hnd. }
      revert Hp. generalize (sorted_names (columns d)). intros P.
      induction P as [|p P IH]; simpl; intros Hp; [constructor|].
      inversion Hp as [|? ? Hx Hp']; subst.
      destruct (String.eqb k (fst p)); [|auto]. simpl. constructor; [|auto].
      intros Hin. apply Hx. apply in_map_iff in Hin as (q & Hq & Hin).
      apply filter_In in Hin as [Hin _]. apply in_map_iff. eauto.
    + intros c Hc. apply group_In in Hc. apply Hc.
  - intros c Hc. exists (key_of_name c), (group (key_of_name c) (sorted_names (columns d))).
    split.
    + apply Hlook. apply group_keys_In. eauto.
    + apply group_In. auto.
  - intros k k' l l' c Hl Hl' Hc Hc'.
    destruct (Hsome _ _ Hl) as [_ ->]. destruct (Hsome _ _ Hl') as [_ ->].
    apply group_In in Hc as [_ ->]. apply group_In in Hc' as [_ ->]. reflexivity.
Qed.

(** ** Dropping columns keeps the mapping a partition *)

(** On an object whose mapping partitions the distinct columns of the raw
    table, dropping columns of that table returns, removes them from the raw
    table and from the mapping, and leaves a mapping that partitions the
    columns that remain; [trans_keys] and every other table, the working
    table among them, stay as they were. *)
Theorem drop_cols_keeps_partition cols st :
  List.NoDup (columns (deref st (df (st_self st)))) ->
  partitions (trans (st_self st)) (columns (deref st (df (st_self st)))) ->
  (forall c, In c cols -> In c (columns (deref st (df (st_self st))))) ->
  exists st',
    drop_cols cols st = (st', Ok tt) /\
    df (st_self st') = df (st_self st) /\
    columns (deref st' (df (st_self st')))
    = List.filter (fun c => negb (mem c cols)) (columns (deref st (df (st_self st)))) /\
    partitions (trans (st_self st')) (columns (deref st' (df (st_self st')))) /\
    trans_keys (st_self st') = trans_keys (st_self st) /\
    df_flt (st_self st') = df_flt (st_self st) /\
    (forall r, r <> df (st_self st) -> deref st' r = deref st r).
Proof.
  intros Hnd (Hlists & Hcover & Honce) Hin.
  destruct (drop_columns_ok _ _ Hin) as (d' & Hdrop & Hcols & _).
  unfold drop_cols. cbv zeta. rewrite Hdrop.
  eexists. split; [reflexivity|].
  cbn [with_store with_self st_self st_store set_groups df trans trans_keys df_flt].
  assert (Hraw : deref (with_store
                   (with_self st (set_groups (st_self st)
                                    (drop_from_group cols <$> trans (st_self st))
                                    (trans_keys (st_self st))))
                   (mutate (df (st_self st)) d' (st_store st))) (df (st_self st)) = d').
  { unfold deref, mutate. simpl. rewrite Nat.eqb_refl. reflexivity. }
  split; [reflexivity|]. split; [rewrite Hraw; exact Hcols|]. split; [|split; [reflexivity|split; [reflexivity|]]].
  - rewrite Hraw, Hcols. split; [|split].
    + intros k l Hl. rewrite lookup_fmap in Hl.
      destruct (trans (st_self st) !! k) as [l0|] eqn:Hl0; [|discriminate].
      simpl in Hl. injection Hl as <-.
      destruct (Hlists k l0 Hl0) as [Hnd0 Hsub].
      destruct (drop_from_group_NoDup cols l0 Hnd0) as [Hnd1 Hin1].
      split; [exact Hnd1|]. intros c Hc. apply Hin1 in Hc as [Hc Hn].
      apply filter_In. split; [auto|].
      destruct (mem c cols) eqn:Hm; [|reflexivity].
      apply mem_In in Hm. contradiction.
    + intros c Hc. apply filter_In in Hc as [Hc Hm].
      destruct (Hcover c Hc) as (k & l & Hl & Hcl).
      exists k, (drop_from_group cols l). split.
      * rewrite lookup_fmap, Hl. reflexivity.
      * destruct (Hlists k l Hl) as [Hnd0 _].
        apply (drop_from_group_NoDup cols l Hnd0). split; [exact Hcl|].
        intros Hx. apply mem_In in Hx. rewrite Hx in Hm. discriminate.
    + intros k k' l l' c Hl Hl' Hc Hc'. rewrite lookup_fmap in Hl, Hl'.
      destruct (trans (st_self st) !! k) as [l0|] eqn:Hl0; [|discriminate].
      destruct (trans (st_self st) !! k') as [l0'|] eqn:Hl0'; [|discriminate].
      simpl in Hl, Hl'. injection Hl as <-. injection Hl' as <-.
      destruct (Hlists k l0 Hl0) as [Hnd0 _]. destruct (Hlists k' l0' Hl0') as [Hnd0' _].
      apply (drop_from_group_NoDup cols l0 Hnd0) in Hc as [Hc _].
      apply (drop_from_group_NoDup cols l0' Hnd0') in Hc' as [Hc' _].
      apply (Honce k k' l0 l0' c); assumption.
  - intros r Hr. unfold deref, mutate. simpl.
    destruct (Nat.eqb_spec r (df (st_self st))); [contradiction|reflexivity].
Qed.

Lemma drop_cols_keeps_partition_witness :
  exists st',
    drop_cols ["flag"%string] loaded = (st', Ok tt) /\
    df (st_self st') = df (st_self loaded) /\
    columns (deref st' (df (st_self st')))
    = List.filter (fun c => negb (mem c ["flag"%string]))
                  (columns (deref loaded (df (st_self loaded)))) /\
    partitions (trans (st_self st')) (columns (deref st' (df (st_self st')))) /\
    trans_keys (st_self st') = trans_keys (st_self loaded) /\
    df_flt (st_self st') = df_flt (st_self loaded) /\
    (forall r, r <> df (st_self loaded) -> deref st' r = deref loaded r).
Proof.
  apply (drop_cols_keeps_partition ["flag"%string] loaded).
  - vm_compute. repeat constructor; simpl; intuition discriminate.
  - eapply (set_trans_partitions _ true).
    + vm_compute. reflexivity.
    + vm_compute. repeat constructor; simpl; intuition discriminate.
  - intros c [<-|[]]. vm_compute. tauto.
Defined.

(** ** A label that is no column *)



(* ===================================================================== *)
(** * Merged groups, views and plot attributes *)
(* ===================================================================== *)

(** ** Merged groups *)

Lemma map_result_lookup (self : CapData) keys :
  Forall (fun k => is_Some (trans self !! k)) keys ->
  map_result (trans_lookup self) keys
  = Ok (map (fun k => default [] (trans self !! k)) keys).
Proof.
  induction 1 as [|k keys [l Hl] _ IH]; cbn [map_result map]; [reflexivity|].
  rewrite IH. unfold trans_lookup. rewrite Hl. reflexivity.
Qed.

(** A second call of [__comb_trans_keys] for the same group changes nothing
    and prints nothing. *)
Theorem comb_trans_keys_idempotent grp self self' out :
  comb_trans_keys grp self = Ok (self', out) ->
  comb_trans_keys grp self' = Ok (self', []).
Proof.
  unfold comb_trans_keys. intros Hc.
  destruct (map_result (trans_lookup self) _) as [ls|] eqn:Hls; simpl in Hc; [|discriminate].
  destruct (mem (grp +:+ "_comb") (trans_keys self)) eqn:Hmem.
  - injection Hc as <- <-. rewrite Hls. simpl. rewrite Hmem. reflexivity.
  - injection Hc as <- <-. cbn [set_groups trans trans_keys].
    assert (Hm : mem (grp +:+ "_comb") (trans_keys self ++ [grp +:+ "_comb"]) = true).
    { apply mem_In. apply in_or_app. right. left. reflexivity. }
    rewrite Hm.
    assert (Hok : is_ok (map_result
                    (trans_lookup (set_groups self
                       (<[grp +:+ "_comb" := concat ls]> (trans self))
                       (trans_keys self ++ [grp +:+ "_comb"])))
                    (List.filter (fun key => PyStr.found (PyStr.find key grp))
                                 (trans_keys self ++ [grp +:+ "_comb"]))) = true).
    { apply map_result_ok. apply List.Forall_forall. intros k Hk.
      apply filter_In in Hk as [Hk Hf]. unfold trans_lookup. cbn [set_groups trans].
      destruct (string_dec k (grp +:+ "_comb")) as [->|Hne].
      - rewrite lookup_insert. destruct (decide _); [reflexivity|congruence].
      - rewrite lookup_insert_ne by congruence.
        apply in_app_or in Hk as [Hk|[Hk|[]]]; [|congruence].
        apply map_result_Forall2 in Hls.
        assert (Hin : In k (List.filter (fun key => PyStr.found (PyStr.find key grp))
                                        (trans_keys self)))
          by (apply filter_In; auto).
        revert Hin. clear -Hls. induction Hls as [|x y xs ys Hxy _ IH]; [intros []|].
        intros [<-|Hin]; [|auto].
        unfold trans_lookup in Hxy. destruct (trans self !! x); [reflexivity|discriminate]. }
    match type of Hok with
    | is_ok ?m = true => destruct m; [reflexivity|discriminate]
    end.
Qed.

Lemma comb_trans_keys_idempotent_witness :
  exists self',
    comb_trans_keys "irr" (st_self loaded) = Ok (self', ["Added new group: irr_comb"%string]) /\
    comb_trans_keys "irr" self' = Ok (self', []).
Proof.
  eexists. split; [vm_compute; reflexivity|].
  eapply (comb_trans_keys_idempotent "irr" (st_self loaded)).
  vm_compute. reflexivity.
Defined.

(** ** The default merged groups after [__set_trans] *)

Lemma classify_in name defs : In (classify name defs) (EmptyString :: map fst defs).
Proof.
  unfold classify. induction defs as [|[key [strs b]] defs IH]; simpl; [left; reflexivity|].
  assert (Hs : match series_type_strs {| s_name := name; s_values := [] |}
                       key b false false strs with
               | Some r => r = Ok (key, [])
               | None => True
               end).
  { induction strs as [|s strs IHs]; simpl; [exact I|].
    destruct (PyStr.find _ _); [reflexivity|exact IHs]. }
  destruct (series_type_strs _ key b false false strs) as [r|].
  - rewrite Hs. right. left. reflexivity.
  - destruct IH as [IH|IH]; [left; exact IH|right; right; exact IH].
Qed.

Lemma default_groups_checked grp :
  grp = "irr"%string \/ grp = "temp"%string ->
  forall a b e,
    In a (EmptyString :: map fst type_defs) ->
    In b (EmptyString :: map fst sub_type_defs) ->
    In e (EmptyString :: map fst irr_sensors_defs) ->
    PyStr.found (PyStr.find (group_key a b e) grp) = String.eqb a grp /\
    String.eqb (group_key a b e) (grp +:+ "_comb") = false /\
    (String.eqb a grp = true -> String.eqb (group_key a b e) "index--" = false).
Proof.
  intros Hgrp a b e Ha Hb He.
  assert (Hall : forallb (fun a => forallb (fun b => forallb (fun e =>
                   Bool.eqb (PyStr.found (PyStr.find (group_key a b e) grp)) (String.eqb a grp)
                   && negb (String.eqb (group_key a b e) (grp +:+ "_comb"))
                   && (negb (String.eqb a grp)
                       || negb (String.eqb (group_key a b e) "index--")))
                   (EmptyString :: map fst irr_sensors_defs))
                   (EmptyString :: map fst sub_type_defs))
                   (EmptyString :: map fst type_defs) = true).
  { destruct Hgrp as [-> | ->]; vm_compute; reflexivity. }
  rewrite forallb_forall in Hall. specialize (Hall a Ha).
  rewrite forallb_forall in Hall. specialize (Hall b Hb).
  rewrite forallb_forall in Hall. specialize (Hall e He).
  apply andb_true_iff in Hall as [Hall H3]. apply andb_true_iff in Hall as [H1 H2].
  apply Bool.eqb_prop in H1. apply negb_true_iff in H2.
  split; [exact H1|]. split; [exact H2|].
  intros Ha'. rewrite Ha' in H3. simpl in H3. apply negb_true_iff in H3. exact H3.
Qed.

Lemma key_of_name_checked grp c :
  grp = "irr"%string \/ grp = "temp"%string ->
  PyStr.found (PyStr.find (key_of_name c) grp) = String.eqb (classify c type_defs) grp /\
  String.eqb (key_of_name c) (grp +:+ "_comb") = false /\
  (String.eqb (classify c type_defs) grp = true ->
   String.eqb (key_of_name c) "index--" = false).
Proof.
  intros Hgrp. unfold key_of_name.
  apply (default_groups_checked grp Hgrp); apply classify_in.
Qed.

(** After [__set_trans], merging the group [irr] (or [temp]), as [plot] does
    by default, adds one key, [irr_comb] (or [temp_comb]), at the end of
    [trans_keys]; its list holds the columns of the table whose category in
    [type_defs] is [irr] (or [temp]), and no other; the lists of the other
    keys stay as they were. *)
Theorem comb_trans_keys_default_groups grp d trans_report t self :
  grp = "irr"%string \/ grp = "temp"%string ->
  set_trans d trans_report = Ok t ->
  trans self = t_trans t ->
  trans_keys self = t_trans_keys t ->
  exists self' cols,
    comb_trans_keys grp self = Ok (self', ["Added new group: " +:+ grp +:+ "_comb"]) /\
    trans_keys self' = trans_keys self ++ [grp +:+ "_comb"] /\
    trans self !! (grp +:+ "_comb") = None /\
    trans self' = <[grp +:+ "_comb" := cols]> (trans self) /\
    forall c, In c cols <-> In c (columns d) /\ classify c type_defs = grp.
Proof.
  intros Hgrp Hset Htrans Hkeys.
  pose proof (set_trans_inv d trans_report t Hset) as Hlook.
  assert (Hkin : forall k, In k (t_trans_keys t) <->
                           is_Some (t_trans t !! k) /\ k <> "index--"%string).
  { intros k. rewrite (set_trans_keys_In d trans_report t Hset).
    rewrite (set_trans_key_of d trans_report t k Hset). reflexivity. }
  assert (Hnew : ~ In (grp +:+ "_comb") (group_keys (columns d))).
  { intros Hin. apply group_keys_In in Hin as (c & _ & Heq).
    destruct (key_of_name_checked grp c Hgrp) as (_ & Hne & _).
    rewrite <- Heq, String.eqb_refl in Hne. discriminate. }
  unfold comb_trans_keys. rewrite map_result_lookup.
  2:{ apply List.Forall_forall. intros k Hk. apply filter_In in Hk as [Hk _].
      rewrite Hkeys in Hk. apply Hkin in Hk as [Hk _]. rewrite Htrans. exact Hk. }
  cbn [mbind result_bind].
  destruct (mem (grp +:+ "_comb") (trans_keys self)) eqn:Hmem.
  { exfalso. apply mem_In in Hmem. rewrite Hkeys in Hmem.
    apply Hkin in Hmem as [[l Hl] _]. destruct (Hlook (grp +:+ "_comb")) as [_ Hout].
    rewrite (Hout Hnew) in Hl. discriminate. }
  eexists. eexists. split; [reflexivity|]. cbn [set_groups trans trans_keys].
  split; [reflexivity|]. split; [rewrite Htrans; apply Hlook; exact Hnew|].
  split; [reflexivity|].
  intros c. rewrite in_concat. split.
  - intros (l & Hl & Hc). apply in_map_iff in Hl as (k & <- & Hk).
    apply filter_In in Hk as [Hk Hf]. rewrite Hkeys in Hk.
    apply Hkin in Hk as [[l Hl] _]. rewrite Htrans, Hl in Hc. simpl in Hc.
    destruct (Hlook k) as [Hin Hout].
    destruct (in_dec string_dec k (group_keys (columns d))) as [Hd|Hd];
      [|rewrite (Hout Hd) in Hl; discriminate].
    rewrite (Hin Hd) in Hl. injection Hl as <-.
    apply group_In in Hc as [Hc ->]. split; [exact Hc|].
    destruct (key_of_name_checked grp c Hgrp) as (Hfound & _).
    rewrite Hfound in Hf. apply String.eqb_eq in Hf. exact Hf.
  - intros [Hc Hcls].
    destruct (key_of_name_checked grp c Hgrp) as (Hfound & _ & Hidx).
    assert (Heq : String.eqb (classify c type_defs) grp = true)
      by (apply String.eqb_eq; exact Hcls).
    assert (Hk : In (key_of_name c) (group_keys (columns d)))
      by (apply group_keys_In; eauto).
    destruct (Hlook (key_of_name c)) as [Hin _].
    exists (group (key_of_name c) (sorted_names (columns d))). split.
    + apply in_map_iff. exists (key_of_name c). split.
      * rewrite Htrans, (Hin Hk). reflexivity.
      * apply filter_In. split; [|rewrite Hfound; exact Heq].
        rewrite Hkeys. apply Hkin. split; [rewrite (Hin Hk); eauto|].
        intros Hidx'. specialize (Hidx Heq). rewrite Hidx', String.eqb_refl in Hidx.
        discriminate.
    + apply group_In. auto.
Qed.

Lemma comb_trans_keys_default_groups_witness :
  exists self' cols,
    comb_trans_keys "irr" (st_self loaded)
    = Ok (self', ["Added new group: " +:+ "irr" +:+ "_comb"]) /\
    trans_keys self' = trans_keys (st_self loaded) ++ ["irr" +:+ "_comb"] /\
    trans (st_self loaded) !! ("irr" +:+ "_comb") = None /\
    trans self' = <["irr" +:+ "_comb" := cols]> (trans (st_self loaded)) /\
    forall c, In c cols <->
              In c (columns (add_index_column (H:=example_runtime) three_columns)) /\
              classify c type_defs = "irr"%string.
Proof.
  eapply (comb_trans_keys_default_groups "irr"
            (add_index_column (H:=example_runtime) three_columns) true _ (st_self loaded)).
  - left. reflexivity.
  - vm_compute. reflexivity.
  - vm_compute. reflexivity.
  - vm_compute. reflexivity.
Defined.

(** ** Views *)

Lemma positions_labels x cols :
  map (fun j => nth j cols EmptyString) (positions x cols)
  = List.filter (fun c => String.eqb c x) cols.
Proof. unfold positions. apply (filter_positions (fun c => String.eqb c x)). Qed.

Lemma filter_eqb_NoDup x cols :
  List.NoDup cols -> In x cols -> List.filter (fun c => String.eqb c x) cols = [x].
Proof.
  induction cols as [|c cols IH]; intros Hnd Hin; [destruct Hin|].
  inversion Hnd as [|? ? Hc Hnd']; subst. simpl.
  destruct (String.eqb_spec c x) as [->|Hne].
  - f_equal. clear -Hc. induction cols as [|y cols IH]; simpl; [reflexivity|].
    destruct (String.eqb_spec y x) as [->|_]; [exfalso; apply Hc; left; reflexivity|].
    apply IH. intros Hin. apply Hc. right. exact Hin.
  - destruct Hin as [|Hin]; [contradiction|]. apply IH; assumption.
Qed.

Lemma select_columns_labels d keys :
  List.NoDup (columns d) ->
  (forall c, In c keys -> In c (columns d)) ->
  select_columns d keys
  = Ok (take_columns d (flat_map (fun k => positions k (columns d)) keys)) /\
  columns (take_columns d (flat_map (fun k => positions k (columns d)) keys)) = keys.
Proof.
  intros Hnd Hin. unfold select_columns. rewrite (forallb_mem _ _ Hin).
  split; [reflexivity|]. unfold take_columns. cbn [columns].
  induction keys as [|k keys IH]; [reflexivity|].
  cbn [flat_map]. rewrite map_app, positions_labels.
  rewrite (filter_eqb_NoDup k _ Hnd) by (apply Hin; left; reflexivity).
  simpl. f_equal. apply IH. intros c Hc. apply Hin. right. exact Hc.
Qed.

Lemma py_index_In {A} (l : list A) i x : py_index l i = Ok x -> In x l.
Proof.
  unfold py_index. destruct (_ && _); [|discriminate].
  destruct (nth_error l _) as [y|] eqn:Hn; [|discriminate].
  intros [= <-]. apply (nth_error_In _ _ Hn).
Qed.

(** After [__set_trans] on a table with distinct columns, the view of a key
    of [trans_keys] returns: it is the raw table cut down to the columns
    whose key this is, in the order of the mapping, with every row; and the
    position of the key in [trans_keys], counted from the start or, when
    negative, from the end, gives the same view. *)
Theorem view_group d trans_report t st k :
  set_trans d trans_report = Ok t ->
  List.NoDup (columns d) ->
  deref st (df (st_self st)) = d ->
  trans (st_self st) = t_trans t ->
  trans_keys (st_self st) = t_trans_keys t ->
  In k (trans_keys (st_self st)) ->
  exists js,
    CapData_view (TItem (KStr k)) st = Ok (take_columns d js) /\
    Some (columns (take_columns d js)) = trans (st_self st) !! k /\
    (forall c, In c (columns (take_columns d js)) <-> In c (columns d) /\ key_of_name c = k) /\
    index (take_columns d js) = index d /\
    forall i, py_index (trans_keys (st_self st)) i = Ok k ->
              CapData_view (TItem (KInt i)) st = Ok (take_columns d js).
Proof.
  intros Hset Hnd Hd Htrans Hkeys Hk.
  pose proof (set_trans_inv d trans_report t Hset) as Hlook.
  assert (Hkin : forall k0, In k0 (t_trans_keys t) <->
                            is_Some (t_trans t !! k0) /\ k0 <> "index--"%string).
  { intros k0. rewrite (set_trans_keys_In d trans_report t Hset).
    rewrite (set_trans_key_of d trans_report t k0 Hset). reflexivity. }
  assert (Hg : In k (group_keys (columns d))).
  { rewrite Hkeys in Hk. apply Hkin in Hk as [[l Hl] _].
    destruct (Hlook k) as [_ Hout].
    destruct (in_dec string_dec k (group_keys (columns d))) as [Hg|Hg]; [exact Hg|].
    rewrite (Hout Hg) in Hl. discriminate. }
  assert (Hl : trans (st_self st) !! k = Some (group k (sorted_names (columns d)))).
  { rewrite Htrans. apply Hlook. exact Hg. }
  destruct (select_columns_labels d (group k (sorted_names (columns d))) Hnd)
    as [Hsel Hcols].
  { intros c Hc. apply group_In in Hc. apply Hc. }
  exists (flat_map (fun k0 => positions k0 (columns d))
                   (group k (sorted_names (columns d)))).
  assert (Hview : CapData_view (TItem (KStr k)) st
                  = Ok (take_columns d (flat_map (fun k0 => positions k0 (columns d))
                                                 (group k (sorted_names (columns d)))))).
  { unfold CapData_view, view_keys.
    assert (Hm : mem k (trans_keys (st_self st)) = true) by (apply mem_In; exact Hk).
    rewrite Hm. unfold trans_lookup. rewrite Hl. cbn [mbind result_bind].
    rewrite Hd. exact Hsel. }
  split; [exact Hview|]. split; [rewrite Hcols, Hl; reflexivity|].
  split; [|split].
  - intros c. rewrite Hcols. rewrite group_In. split; intros [H1 H2]; split; auto.
  - unfold index, take_columns. cbn [rows]. rewrite map_map. reflexivity.
  - intros i Hi. rewrite <- Hview. unfold CapData_view, view_keys.
    rewrite Hi. cbn [mbind result_bind].
    assert (Hm : mem k (trans_keys (st_self st)) = true) by (apply mem_In; exact Hk).
    rewrite Hm. reflexivity.
Qed.

Lemma view_group_witness :
  exists js,
    CapData_view (TItem (KStr "irr-poa-")) loaded
    = Ok (take_columns (add_index_column (H:=example_runtime) three_columns) js) /\
    Some (columns (take_columns (add_index_column (H:=example_runtime) three_columns) js))
    = trans (st_self loaded) !! "irr-poa-"%string /\
    (forall c, In c (columns (take_columns (add_index_column (H:=example_runtime)
                                              three_columns) js)) <->
               In c (columns (add_index_column (H:=example_runtime) three_columns)) /\
               key_of_name c = "irr-poa-"%string) /\
    index (take_columns (add_index_column (H:=example_runtime) three_columns) js)
    = index (add_index_column (H:=example_runtime) three_columns) /\
    forall i, py_index (trans_keys (st_self loaded)) i = Ok "irr-poa-"%string ->
              CapData_view (TItem (KInt i)) loaded
              = Ok (take_columns (add_index_column (H:=example_runtime) three_columns) js).
Proof.
  eapply (view_group (add_index_column (H:=example_runtime) three_columns) true _
            loaded "irr-poa-").
  - vm_compute. reflexivity.
  - vm_compute. repeat constructor; simpl; intuition discriminate.
  - vm_compute. reflexivity.
  - vm_compute. reflexivity.
  - vm_compute. reflexivity.
  - vm_compute. tauto.
Defined.

Section ViewLoaded.
Context `{PyRuntime}.

(** After a load that built the mapping, the key [index--], although a key
    of the mapping, cannot be viewed by name, nor can a list of one name:
    both fail on the unassigned variable [keys]. A list that names it twice
    is accepted. *)
Theorem view_index_group all_sensors trans_report st0 st out :
  load_data all_sensors true trans_report st0 = (st, Ok out) ->
  CapData_view (TItem (KStr "index--")) st = Raise (UnboundLocalError "keys") /\
  (forall item, CapData_view (TList [item]) st = Raise (UnboundLocalError "keys")) /\
  is_ok (CapData_view (TList [KStr "index--"; KStr "index--"]) st) = true.
Proof.
  intros Hload.
  apply load_data_inv in Hload as (t & r & Hset & Htrans & Htk & Hraw & _).
  pose proof (set_trans_inv _ _ _ Hset "index--"%string) as [Hidx _].
  specialize (Hidx (index_key_in_group_keys all_sensors)).
  rewrite <- Htrans in Hidx.
  assert (Hkeys : ~ In "index--"%string (trans_keys (st_self st))).
  { rewrite Htk. intros Hin. apply (set_trans_keys_In _ _ _ Hset) in Hin as [_ Hne].
    apply Hne. reflexivity. }
  remember (group "index--" (sorted_names (columns (add_index_column all_sensors)))) as l
    eqn:Hldef.
  rename Hidx into Hl.
  split; [|split].
  - unfold CapData_view, view_keys.
    destruct (mem "index--" (trans_keys (st_self st))) eqn:Hm; [|reflexivity].
    apply mem_In in Hm. contradiction.
  - intros item. reflexivity.
  - unfold CapData_view, view_keys. cbn [length Nat.ltb Nat.leb map_result].
    unfold trans_lookup. rewrite Hl. cbn [mbind result_bind concat].
    unfold select_columns. rewrite forallb_mem; [reflexivity|].
    intros c Hc. rewrite app_nil_r in Hc.
    assert (Hcl : In c l) by (apply in_app_or in Hc as [|]; assumption).
    subst l. apply group_In in Hcl as [Hcl _]. rewrite Hraw. exact Hcl.
Qed.

End ViewLoaded.

Lemma view_index_group_witness :
  CapData_view (TItem (KStr "index--")) loaded = Raise (UnboundLocalError "keys") /\
  (forall item, CapData_view (TList [item]) loaded = Raise (UnboundLocalError "keys")) /\
  is_ok (CapData_view (TList [KStr "index--"; KStr "index--"]) loaded) = true.
Proof.
  apply (view_index_group (H:=example_runtime) three_columns true new_object loaded []).
  vm_compute. reflexivity.
Defined.

(** ** Plot attributes *)

Lemma str_split_nonempty sep s : str_split sep s <> [].
Proof.
  destruct s as [|c s]; simpl; [discriminate|].
  destruct (Ascii.eqb c sep); [discriminate|].
  destruct (str_split sep s); discriminate.
Qed.

Lemma str_split_two sep a b :
  exists x y rest, str_split sep (a +:+ String sep b) = x :: y :: rest.
Proof.
  induction a as [|c a (x & y & rest & IH)]; simpl.
  - rewrite Ascii.eqb_refl.
    destruct (str_split sep b) as [|y rest] eqn:E; [exfalso; apply (str_split_nonempty _ _ E)|].
    eauto.
  - change (a +:+ String sep b) with (a +:+ String sep b) in IH.
    unfold String.app in IH. fold String.app in IH.
    destruct (Ascii.eqb c sep); [rewrite IH; eauto|]. rewrite IH. eauto.
Qed.

Lemma col_key_of_group_key a b e : is_ok (col_key_of (group_key a b e)) = true.
Proof.
  unfold col_key_of, group_key. cbn [PyStr.join].
  destruct (str_split_two "-" a (b +:+ "-" +:+ e)) as (x & y & rest & Hs).
  change (String.append a (String.append "-" (String.append b (String.append "-" e))))
    with (a +:+ String "-" (b +:+ "-" +:+ e)).
  rewrite Hs. reflexivity.
Qed.

Lemma kw_find_In {A} k (items : list (string * A)) v :
  kw_find k items = Some v -> In (k, v) items.
Proof.
  induction items as [|[k' v'] items IH]; simpl; [discriminate|].
  destruct (String.eqb_spec k k') as [->|_]; [intros [= ->]; left; reflexivity|].
  intros Hf. right. apply IH. exact Hf.
Qed.

Section PlotAttributes.
Variable Category10_10 : list string.
Hypothesis Category10_length : length Category10_10 = 10%nat.

Lemma pick_color_ok col_key i : is_ok (pick_color Category10_10 col_key i) = true.
Proof.
  unfold pick_color. destruct (kw_find col_key plot_colors_brewer) as [palette|] eqn:Hf.
  - apply kw_find_In in Hf.
    assert (Hlen : length palette = 4%nat).
    { assert (Hall : Forall (fun kv => length (snd kv) = 4%nat) plot_colors_brewer)
        by (repeat constructor).
      rewrite List.Forall_forall in Hall. apply (Hall _ Hf). }
    destruct (nth_error palette (i mod 4)%nat) eqn:Hn; [reflexivity|].
    apply nth_error_None in Hn. pose proof (Nat.mod_upper_bound i 4). lia.
  - destruct (nth_error Category10_10 (i mod 10)%nat) eqn:Hn; [reflexivity|].
    apply nth_error_None in Hn. pose proof (Nat.mod_upper_bound i 10). lia.
Qed.

Lemma set_plot_cols_ok key cols : forall i p,
  is_ok (col_key_of key) = true ->
  exists p',
    set_plot_cols Category10_10 key i cols p = (p', Ok tt) /\
    (forall c, is_Some (col_colors p !! c) -> is_Some (col_colors p' !! c)) /\
    (forall c, In c cols -> is_Some (col_colors p' !! c)).
Proof.
  induction cols as [|col cols IH]; intros i p Hkey; cbn [set_plot_cols].
  - exists p. split; [reflexivity|]. split; [auto|]. intros c [].
  - destruct (col_key_of key) as [col_key|] eqn:Hck; [|discriminate].
    cbn [mbind result_bind].
    pose proof (pick_color_ok col_key i) as Hpick.
    destruct (pick_color Category10_10 col_key i) as [color|]; [|discriminate].
    match goal with
    | |- context [set_plot_cols _ key (S i) cols ?q] =>
        destruct (IH (S i) q eq_refl) as (p' & Hrun & Hkeep & Hall)
    end.
    exists p'. split; [exact Hrun|]. cbn [col_colors] in Hkeep. split.
    + intros c Hc. apply Hkeep. destruct (string_dec c col) as [->|Hne].
      * rewrite lookup_insert. destruct (decide _); [eauto|congruence].
      * rewrite lookup_insert_ne by congruence. exact Hc.
    + intros c [<-|Hc]; [|auto]. apply Hkeep. rewrite lookup_insert.
      destruct (decide _); [eauto|congruence].
Qed.

Lemma select_columns_incl d l :
  (forall c, In c l -> In c (columns d)) ->
  exists v, select_columns d l = Ok v /\ forall c, In c l -> In c (columns v).
Proof.
  intros Hin. unfold select_columns. rewrite (forallb_mem _ _ Hin).
  eexists. split; [reflexivity|]. intros c Hc. unfold take_columns. cbn [columns].
  induction l as [|k l IH]; [destruct Hc|]. cbn [flat_map]. rewrite map_app.
  apply in_or_app. destruct Hc as [->|Hc].
  - left. rewrite positions_labels. apply filter_In.
    split; [apply Hin; left; reflexivity|apply String.eqb_refl].
  - right. apply IH; [|exact Hc]. intros c' Hc'. apply Hin. right. exact Hc'.
Qed.

Lemma set_plot_keys_ok self dframe keys : forall p,
  Forall (fun key => is_ok (col_key_of key) = true /\
                     exists l, trans self !! key = Some l /\
                               forall c, In c l -> In c (columns dframe)) keys ->
  exists p',
    set_plot_keys Category10_10 self dframe keys p = (p', Ok tt) /\
    (forall c, is_Some (col_colors p !! c) -> is_Some (col_colors p' !! c)) /\
    (forall key l c, In key keys -> trans self !! key = Some l -> In c l ->
                     is_Some (col_colors p' !! c)).
Proof.
  induction keys as [|key keys IH]; intros p Hall; cbn [set_plot_keys].
  - exists p. split; [reflexivity|]. split; [auto|]. intros key l c [].
  - inversion Hall as [|? ? (Hkey & l & Hl & Hsub) Hrest]; subst.
    unfold trans_lookup. rewrite Hl. cbn [mbind result_bind].
    destruct (select_columns_incl dframe l Hsub) as (v & Hv & Hvin). rewrite Hv.
    destruct (set_plot_cols_ok key (columns v) 0 p Hkey) as (p1 & Hrun & Hkeep & Hcols).
    rewrite Hrun.
    destruct (IH p1 Hrest) as (p' & Hrun' & Hkeep' & Hall').
    exists p'. split; [exact Hrun'|]. split; [auto|].
    intros key' l' c [<-|Hk] Hl' Hc.
    + rewrite Hl in Hl'. injection Hl' as <-. apply Hkeep'. apply Hcols. auto.
    + apply (Hall' key' l' c Hk Hl' Hc).
Qed.

(** [set_plot_attributes], which [__set_trans] calls last, returns on the
    mapping that [__set_trans] has built; it gives a colour to every column
    of the table other than those under [index--], and takes the colour of
    no column away. *)
Theorem set_plot_attributes_after_set_trans d trans_report t st p :
  set_trans d trans_report = Ok t ->
  deref st (df (st_self st)) = d ->
  trans (st_self st) = t_trans t ->
  trans_keys (st_self st) = t_trans_keys t ->
  exists p',
    set_plot_attributes Category10_10 st p = (p', Ok tt) /\
    (forall c, In c (columns d) -> key_of_name c <> "index--"%string ->
               is_Some (col_colors p' !! c)) /\
    (forall c, is_Some (col_colors p !! c) -> is_Some (col_colors p' !! c)).
Proof.
  intros Hset Hd Htrans Hkeys.
  pose proof (set_trans_inv d trans_report t Hset) as Hlook.
  assert (Hkin : forall k, In k (t_trans_keys t) <->
                           is_Some (t_trans t !! k) /\ k <> "index--"%string).
  { intros k. rewrite (set_trans_keys_In d trans_report t Hset).
    rewrite (set_trans_key_of d trans_report t k Hset). reflexivity. }
  assert (Hgk : forall k, In k (t_trans_keys t) ->
                  In k (group_keys (columns d)) /\ k <> "index--"%string).
  { intros k Hk. apply Hkin in Hk as [[l Hl] Hne]. split; [|exact Hne].
    destruct (Hlook k) as [_ Hout].
    destruct (in_dec string_dec k (group_keys (columns d))) as [Hg|Hg]; [exact Hg|].
    rewrite (Hout Hg) in Hl. discriminate. }
  unfold set_plot_attributes. rewrite Hd, Hkeys.
  destruct (set_plot_keys_ok (st_self st) d (t_trans_keys t) p) as (p' & Hrun & Hkeep & Hall).
  { apply List.Forall_forall. intros k Hk. destruct (Hgk k Hk) as [Hg _]. split.
    - apply group_keys_In in Hg as (c & _ & ->). apply col_key_of_group_key.
    - exists (group k (sorted_names (columns d))). split.
      + rewrite Htrans. apply Hlook. exact Hg.
      + intros c Hc. apply group_In in Hc. apply Hc. }
  exists p'. split; [exact Hrun|]. split; [|exact Hkeep].
  intros c Hc Hne.
  assert (Hg : In (key_of_name c) (group_keys (columns d))) by (apply group_keys_In; eauto).
  apply (Hall (key_of_name c) (group (key_of_name c) (sorted_names (columns d))) c).
  - apply Hkin. split; [|exact Hne]. destruct (Hlook (key_of_name c)) as [Hin _].
    rewrite (Hin Hg). eauto.
  - rewrite Htrans. apply Hlook. exact Hg.
  - apply group_In. auto.
Qed.

End PlotAttributes.

Lemma set_plot_attributes_after_set_trans_witness :
  exists p',
    set_plot_attributes example_palette loaded no_plot_attributes = (p', Ok tt) /\
    (forall c, In c (columns (deref loaded (df (st_self loaded)))) ->
               key_of_name c <> "index--"%string ->
               is_Some (col_colors p' !! c)) /\
    (forall c, is_Some (col_colors no_plot_attributes !! c) -> is_Some (col_colors p' !! c)).
Proof.
  eapply (set_plot_attributes_after_set_trans example_palette eq_refl
            (deref loaded (df (st_self loaded))) true _ loaded no_plot_attributes).
  - vm_compute. reflexivity.
  - reflexivity.
  - vm_compute. reflexivity.
  - vm_compute. reflexivity.
Defined.

(* ===================================================================== *)
(** * The irradiance column of a filter call without a column name *)
(* ===================================================================== *)





Section DefaultColumn.
Context `{PyRuntime}.


End DefaultColumn.


(* ===================================================================== *)
(** * The argument string of an entry and the header rows of a file *)
(* ===================================================================== *)

(** ** The argument string of an entry *)

Section ArgumentString.
Context `{PyRuntime}.

Lemma tuple_repr_paren args : exists rest, tuple_repr args = String "(" rest.
Proof.
  unfold tuple_repr. destruct args as [|a [|b args]]; eexists; reflexivity.
Qed.

(** The argument string of an entry is always the [repr] of the tuple of
    positional arguments, a comma, and the keyword arguments: it opens with
    a parenthesis, also for a call without arguments, and is never
    [no arguments]. *)
Theorem summary_arg_str_has_tuple args kwargs :
  summary_arg_str args kwargs
  = tuple_repr args +:+ ", " +:+ PyStr.strip "{}" (dict_repr kwargs) /\
  (exists rest, summary_arg_str args kwargs = String "(" rest) /\
  summary_arg_str args kwargs <> "no arguments"%string.
Proof.
  assert (Heq : summary_arg_str args kwargs
                = tuple_repr args +:+ ", " +:+ PyStr.strip "{}" (dict_repr kwargs)).
  { unfold summary_arg_str. destruct (tuple_repr_paren args) as [rest ->]. reflexivity. }
  split; [exact Heq|].
  destruct (tuple_repr_paren args) as [rest Hrest].
  rewrite Heq, Hrest. split; [eexists; reflexivity|discriminate].
Qed.

End ArgumentString.

(** ** The header rows of a measured-data file *)



